(** * VSCode-Patch-Apply: a shallow embedding of [PatchApplyViewProvider.ts]

    The extension takes unified-diff text pasted into a webview, lets the
    [diff] package (jsdiff) parse it, and either shows a reconstructed
    before/after view per file or applies every parsed patch to a file of
    the workspace after asking the user which file is meant.

    Modelling choices.
    - A JavaScript string is a [string]; one character stands for one
      UTF-16 code unit below 256.
    - The [vscode] API and the [diff] package are outside the repository.
      They are the fields of a [Host] record: the file system is a finite
      map from URIs to nodes, every call that crosses the boundary is
      written to a trace, and the answers of the user and of the two
      libraries are functions of the host.
    - [async] functions run to completion one after the other, so the
      provider is a state-and-exception monad over [World]; [return] from
      the middle of a function body is a third kind of result.

    The definitions come first: the model of the source, the predicates
    and contracts of the statements, and some concrete hosts. The proofs
    follow: a small calculus of runs, then one part for each property. *)

From Stdlib Require Import Ascii String.
From stdpp Require Import gmap strings list pretty.

(** ** JavaScript strings *)

Module JS.

Definition CR : ascii := "013"%char.
Definition LF : ascii := "010"%char.

(** [String.prototype.trim] strips WhiteSpace and LineTerminator code
    points; below 256 these are TAB, LF, VT, FF, CR, SP and NBSP. *)
Definition isWhiteSpace (c : ascii) : bool :=
  match c with
  | "009" | "010" | "011" | "012" | "013" | " " | "160" => true
  | _ => false
  end%char.

Fixpoint trimStart (s : string) : string :=
  match s with
  | EmptyString => EmptyString
  | String c r => if isWhiteSpace c then trimStart r else s
  end.

Fixpoint trimEnd (s : string) : string :=
  match s with
  | EmptyString => EmptyString
  | String c r =>
      match trimEnd r with
      | EmptyString => if isWhiteSpace c then EmptyString else String c EmptyString
      | r' => String c r'
      end
  end.

Definition trim (s : string) : string := trimEnd (trimStart s).

(** [s.substring(n)] and [s.substring(0, n)]. *)
Fixpoint substringFrom (n : nat) (s : string) : string :=
  match n, s with
  | O, _ => s
  | S n', String _ r => substringFrom n' r
  | S _, EmptyString => EmptyString
  end.

Fixpoint substringTo (n : nat) (s : string) : string :=
  match n, s with
  | S n', String c r => String c (substringTo n' r)
  | _, _ => EmptyString
  end.

Definition startsWith (s p : string) : bool := String.prefix p s.

(** ECMAScript: [start = len - searchLength]; false when negative,
    otherwise the code units from [start] on are compared. *)
Definition endsWith (s p : string) : bool :=
  if decide (String.length p ≤ String.length s)
  then bool_decide (substringFrom (String.length s - String.length p) s = p)
  else false.

(** [s.replace(/^p/, '')] for a literal [p]. *)
Definition stripPrefix (p s : string) : string :=
  if startsWith s p then substringFrom (String.length p) s else s.

(** [s.replace(/^a\//, '')], [s.replace(/^b\//, '')] and
    [s.replace(/^[ab]\//, '')]. *)
Definition strip_a (s : string) : string := stripPrefix "a/" s.
Definition strip_b (s : string) : string := stripPrefix "b/" s.
Definition strip_ab (s : string) : string :=
  if startsWith s "a/" then substringFrom 2 s
  else if startsWith s "b/" then substringFrom 2 s
  else s.

(** [s.split('/').pop()]: what follows the last slash. *)
Fixpoint lastSegment_go (cur s : string) : string :=
  match s with
  | EmptyString => cur
  | String c r =>
      if Ascii.eqb c "/" then lastSegment_go r r
      else lastSegment_go cur r
  end.
Definition lastSegment (s : string) : string := lastSegment_go s s.

(** [xs.join(sep)]. *)
Fixpoint join (sep : string) (xs : list string) : string :=
  match xs with
  | [] => EmptyString
  | [x] => x
  | x :: rest => x +:+ sep +:+ join sep rest
  end.

(** [s.replace(/\r\n/g, '\n')]: matches are found left to right and do
    not overlap. *)
Fixpoint replaceCRLF (s : string) : string :=
  match s with
  | EmptyString => EmptyString
  | String c r =>
      match r with
      | String c' r' =>
          if Ascii.eqb c CR && Ascii.eqb c' LF
          then String LF (replaceCRLF r')
          else String c (replaceCRLF r)
      | EmptyString => String c EmptyString
      end
  end.

(** [s.replace(/\r/g, '\n')]. *)
Fixpoint replaceCR (s : string) : string :=
  match s with
  | EmptyString => EmptyString
  | String c r => String (if Ascii.eqb c CR then LF else c) (replaceCR r)
  end.

(** JavaScript truthiness of a possibly undefined string, and [a || b]. *)
Definition truthy (o : option string) : bool :=
  match o with
  | Some EmptyString | None => false
  | Some _ => true
  end.

Definition or_else (a b : option string) : option string :=
  if truthy a then a else b.

(** [o || d] with a string literal [d] on the right. *)
Definition or_default (o : option string) (d : string) : string :=
  match o with
  | Some (String c r) => String c r
  | _ => d
  end.

(** [s.charAt(0)]: the empty string when [s] is empty. *)
Definition charAt0 (s : string) : string :=
  match s with
  | EmptyString => EmptyString
  | String c _ => String c EmptyString
  end.

Definition nl : string := String LF EmptyString.

(** A possibly undefined string inside a template literal. *)
Definition show (o : option string) : string := default "undefined" o.

Fixpoint contains (c : ascii) (s : string) : bool :=
  match s with
  | EmptyString => false
  | String c' r => Ascii.eqb c c' || contains c r
  end.

(** A number of a hunk header: an integer, or [NaN], which is what the
    unary plus of the parser gives for a header that is not one. *)
Inductive number :=
| Int (z : Z)
| NaN.

#[global] Instance number_eq_dec : EqDecision number.
Proof. solve_decision. Defined.

End JS.

(** ** [normalizeLineEndings] (lines 7-10) *)

Definition normalizeLineEndings (str : string) : string :=
  match str with
  | EmptyString => EmptyString
  | _ => JS.replaceCR (JS.replaceCRLF str)
  end.

(** ** [cleanDiffInput] (lines 63-72) *)

Definition fenceOpen : string := "```diff".
Definition fenceClose : string := "```".

Definition cleanDiffInput (rawDiffText : string) : string :=
  let cleanDiffText := JS.trim rawDiffText in
  let cleanDiffText :=
    if JS.startsWith cleanDiffText fenceOpen
    then JS.substringFrom (String.length fenceOpen) cleanDiffText
    else cleanDiffText in
  let cleanDiffText :=
    if JS.endsWith cleanDiffText fenceClose
    then JS.substringTo (String.length cleanDiffText - String.length fenceClose)
           cleanDiffText
    else cleanDiffText in
  JS.trim cleanDiffText.

(** ** The [diff] package: the shape of a parsed patch *)

Module Diff.

Record Hunk := {
  oldStart : JS.number;
  oldLines : JS.number;
  newStart : JS.number;
  newLines : JS.number;
  lines : list string
}.

Record StructuredPatch := {
  index : option string;
  oldFileName : option string;
  newFileName : option string;
  oldHeader : option string;
  newHeader : option string;
  hunks : list Hunk
}.

#[global] Instance Hunk_eq_dec : EqDecision Hunk.
Proof. solve_decision. Defined.

#[global] Instance StructuredPatch_eq_dec : EqDecision StructuredPatch.
Proof. solve_decision. Defined.

End Diff.

Abbreviation ParsedPatchType := Diff.StructuredPatch.

(** ** The host: file system, user and libraries *)

Abbreviation Uri := string (only parsing).

Inductive Node :=
| File (content : string)
| Directory.

(** A thrown value: what the handlers read is [code], [name], [message]. *)
Record JsError := {
  code : string;
  name : string;
  message : string
}.

Inductive QuickPickAction :=
| select_this_uri
| choose_manually
| cancel_operation.

Record FileQuickPickItem := {
  label : string;
  action : QuickPickAction;
  uri : option Uri
}.

(** Every call that leaves the provider. *)
Inductive Event :=
| ShowInformationMessage (msg : string)
| ShowWarningMessage (msg : string)
| ShowErrorMessage (msg : string)
| ConsoleError (msg : string) (err : JsError)
| PostMessage (type msg : string)
| ShowInputBox (prompt value placeHolder : string) (answer : option string)
| ShowQuickPick (items : list string) (placeHolder : string) (answer : option string)
| ShowQuickPickItems (items : list FileQuickPickItem) (placeHolder : string)
    (answer : option FileQuickPickItem)
| ShowOpenDialog (openLabel : string) (defaultUri : option Uri)
    (answer : option (list Uri))
| ShowModalWarning (msg : string) (items : list string) (answer : option string)
| FsStat (target : Uri)
| FsReadFile (target : Uri)
| FsWriteFile (target : Uri) (content : string)
| FsDelete (target : Uri)
| FindFiles (include exclude : string) (maxResults : nat)
| OpenTextDocument (target : Uri)
| OpenUntitledDocument (content language : string)
| ShowTextDocument (target : Uri)
| ExecuteDiff (left right : Uri) (title : string)
| ParsePatch (uniDiff : string)
| ApplyPatch (source : string) (patch : ParsedPatchType) (fuzzFactor : Z)
    (result : option string).

(** The provider's fields [_view] and [_currentRawDiffText], the files, and
    the calls made so far, newest first. *)
Record World := {
  fs : gmap string Node;
  trace : list Event;
  view : bool;
  currentRawDiffText : string
}.

Record Host := {
  (** [Diff.parsePatch]: the patches of a text, or a thrown error. *)
  parsePatch : string → JsError + list ParsedPatchType;
  (** [Diff.applyPatch(source, patch, {fuzzFactor})]: the patched text, or
      [false]. *)
  applyPatch : string → ParsedPatchType → Z → option string;
  (** [vscode.workspace.workspaceFolders[0].uri], when there is one. *)
  workspaceFolder : option Uri;
  joinPath : Uri → string → JsError + Uri;
  (** [vscode.Uri.file(path)]: the URI of a path, or a thrown error. *)
  uriFile : string → JsError + Uri;
  asRelativePath : Uri → string;
  findFiles : World → string → string → nat → JsError + list Uri;
  untitledUri : World → string → Uri;
  (** The user: the text typed, the index of the item picked, the files
      selected; [None] when the prompt is dismissed. *)
  showInputBox : World → string → string → string → option string;
  showQuickPick : World → list string → string → option nat;
  showQuickPickItems : World → list FileQuickPickItem → string → option nat;
  showOpenDialog : World → string → option Uri → option (list Uri);
  showModalWarning : World → string → list string → option nat;
  (** A file-system or editor call that fails for a reason of the host. *)
  fault : World → Event → option JsError
}.

(** ** The monad of the provider's methods *)

Inductive Res (R A : Type) :=
| Normal (a : A)
| Returned (r : R)
| Thrown (e : JsError).
Arguments Normal {R A} a.
Arguments Returned {R A} r.
Arguments Thrown {R A} e.

Definition M (R A : Type) : Type := World → Res R A * World.

Definition ret {R A} (a : A) : M R A := λ w, (Normal a, w).

Definition bind {R A B} (m : M R A) (k : A → M R B) : M R B :=
  λ w, match m w with
       | (Normal a, w') => k a w'
       | (Returned r, w') => (Returned r, w')
       | (Thrown e, w') => (Thrown e, w')
       end.

Notation "x <- m ;; k" := (bind m (λ x, k))
  (at level 100, m at next level, right associativity).
Notation "m ;;; k" := (bind m (λ _, k))
  (at level 100, right associativity).

(** [return r] in the middle of a body, and [throw e]. *)
Definition return_ {R A} (r : R) : M R A := λ w, (Returned r, w).
Definition throw {R A} (e : JsError) : M R A := λ w, (Thrown e, w).

(** [try { m } catch (e) { handler e }]: a [return] inside [m] is not
    caught. *)
Definition tryCatch {R A} (m : M R A) (handler : JsError → M R A) : M R A :=
  λ w, match m w with
       | (Thrown e, w') => handler e w'
       | other => other
       end.

(** A function body seen from its caller. *)
Definition callFn {R R'} (body : M R R) : M R' R :=
  λ w, match body w with
       | (Normal r, w') | (Returned r, w') => (Normal r, w')
       | (Thrown e, w') => (Thrown e, w')
       end.

Definition getWorld {R} : M R World := λ w, (Normal w, w).

Definition emit {R} (e : Event) : M R unit :=
  λ w, (Normal tt,
        {| fs := fs w; trace := e :: trace w; view := view w;
           currentRawDiffText := currentRawDiffText w |}).

Definition modifyFs {R} (f : gmap string Node → gmap string Node) : M R unit :=
  λ w, (Normal tt,
        {| fs := f (fs w); trace := trace w; view := view w;
           currentRawDiffText := currentRawDiffText w |}).

Definition setCurrentRawDiffText {R} (text : string) : M R unit :=
  λ w, (Normal tt,
        {| fs := fs w; trace := trace w; view := view w;
           currentRawDiffText := text |}).

Definition liftResult {R A} (r : JsError + A) : M R A :=
  match r with
  | inl e => throw e
  | inr a => ret a
  end.

(** ** Calls into the host *)

Definition fileNotFound (target : Uri) : JsError :=
  {| code := "FileNotFound"; name := "EntryNotFound (FileSystemError)";
     message := "Unable to resolve nonexistent file '" +:+ target +:+ "'" |}.

Definition fileIsADirectory (target : Uri) : JsError :=
  {| code := "FileIsADirectory"; name := "EntryIsADirectory (FileSystemError)";
     message := "Unable to use '" +:+ target +:+ "' (file is a directory)" |}.

Section HostCalls.
Context (h : Host) {R : Type}.

Definition showInformationMessage (msg : string) : M R unit :=
  emit (ShowInformationMessage msg).
Definition showWarningMessage (msg : string) : M R unit :=
  emit (ShowWarningMessage msg).
Definition showErrorMessage (msg : string) : M R unit :=
  emit (ShowErrorMessage msg).
Definition consoleError (msg : string) (err : JsError) : M R unit :=
  emit (ConsoleError msg err).

(** [if (this._view) { this._view.webview.postMessage(...) }]. *)
Definition postParseError (msg : string) : M R unit :=
  w <- getWorld ;;
  if view w then emit (PostMessage "parseError" msg) else ret tt.

Definition askInputBox (prompt value placeHolder : string)
  : M R (option string) :=
  w <- getWorld ;;
  let answer := showInputBox h w prompt value placeHolder in
  emit (ShowInputBox prompt value placeHolder answer) ;;;
  ret answer.

Definition askQuickPick (items : list string) (placeHolder : string)
  : M R (option string) :=
  w <- getWorld ;;
  let answer := i ← showQuickPick h w items placeHolder; items !! i in
  emit (ShowQuickPick items placeHolder answer) ;;;
  ret answer.

Definition askQuickPickItems (items : list FileQuickPickItem)
  (placeHolder : string) : M R (option FileQuickPickItem) :=
  w <- getWorld ;;
  let answer := i ← showQuickPickItems h w items placeHolder; items !! i in
  emit (ShowQuickPickItems items placeHolder answer) ;;;
  ret answer.

Definition askOpenDialog (openLabel : string) (defaultUri : option Uri)
  : M R (option (list Uri)) :=
  w <- getWorld ;;
  let answer := showOpenDialog h w openLabel defaultUri in
  emit (ShowOpenDialog openLabel defaultUri answer) ;;;
  ret answer.

Definition askModalWarning (msg : string) (items : list string)
  : M R (option string) :=
  w <- getWorld ;;
  let answer := i ← showModalWarning h w msg items; items !! i in
  emit (ShowModalWarning msg items answer) ;;;
  ret answer.

(** A call that the host may fail. *)
Definition hostCall (e : Event) : M R unit :=
  w <- getWorld ;;
  emit e ;;;
  match fault h w e with
  | Some err => throw err
  | None => ret tt
  end.

Definition fsStat (target : Uri) : M R Node :=
  hostCall (FsStat target) ;;;
  w <- getWorld ;;
  match fs w !! target with
  | Some n => ret n
  | None => throw (fileNotFound target)
  end.

(** [new TextDecoder().decode(await fs.readFile(uri))]: the content of a
    file is kept as the text it decodes to. *)
Definition fsReadFile (target : Uri) : M R string :=
  hostCall (FsReadFile target) ;;;
  w <- getWorld ;;
  match fs w !! target with
  | Some (File content) => ret content
  | Some Directory => throw (fileIsADirectory target)
  | None => throw (fileNotFound target)
  end.

Definition fsWriteFile (target : Uri) (content : string) : M R unit :=
  hostCall (FsWriteFile target content) ;;;
  w <- getWorld ;;
  match fs w !! target with
  | Some Directory => throw (fileIsADirectory target)
  | _ => modifyFs (insert target (File content))
  end.

Definition fsDelete (target : Uri) : M R unit :=
  hostCall (FsDelete target) ;;;
  w <- getWorld ;;
  match fs w !! target with
  | Some _ => modifyFs (delete target)
  | None => throw (fileNotFound target)
  end.

Definition workspaceFindFiles (include exclude : string) (maxResults : nat)
  : M R (list Uri) :=
  w <- getWorld ;;
  emit (FindFiles include exclude maxResults) ;;;
  liftResult (findFiles h w include exclude maxResults).

Definition openTextDocument (target : Uri) : M R Uri :=
  hostCall (OpenTextDocument target) ;;;
  ret target.

Definition openUntitledDocument (content language : string) : M R Uri :=
  w <- getWorld ;;
  hostCall (OpenUntitledDocument content language) ;;;
  ret (untitledUri h w content).

Definition showTextDocument (doc : Uri) : M R unit :=
  hostCall (ShowTextDocument doc).

Definition executeDiff (left right : Uri) (title : string) : M R unit :=
  hostCall (ExecuteDiff left right title).

Definition Diff_parsePatch (uniDiff : string) : M R (list ParsedPatchType) :=
  emit (ParsePatch uniDiff) ;;;
  liftResult (parsePatch h uniDiff).

Definition Diff_applyPatch (source : string) (patch : ParsedPatchType)
  (fuzzFactor : Z) : M R (option string) :=
  let result := applyPatch h source patch fuzzFactor in
  emit (ApplyPatch source patch fuzzFactor result) ;;;
  ret result.

End HostCalls.

(** ** The provider *)

Section Provider.
Context (h : Host).

(** *** Preview: [processAndShowAllDiffs] (lines 74-154) *)

(** The body of the two nested [forEach] (lines 112-121): one line of a
    hunk is pushed on [originalContentLines], on [newContentLines], on
    both or on neither. *)
Definition pushLine (acc : list string * list string) (line : string)
  : list string * list string :=
  let changeType := JS.charAt0 line in
  let lineContent := JS.substringFrom 1 line in
  let originalContentLines :=
    if String.eqb changeType " " || String.eqb changeType "-"
    then acc.1 ++ [lineContent] else acc.1 in
  let newContentLines :=
    if String.eqb changeType " " || String.eqb changeType "+"
    then acc.2 ++ [lineContent] else acc.2 in
  (originalContentLines, newContentLines).

Definition collectLines (hunks : list Diff.Hunk) : list string * list string :=
  fold_left (λ acc hunk, fold_left pushLine (Diff.lines hunk) acc) hunks ([], []).

(** Lines 108-125: the two texts handed to the diff editor. *)
Definition reconstruct (hunks : list Diff.Hunk) : string * string :=
  let '(originalContentLines, newContentLines) := collectLines hunks in
  (normalizeLineEndings (JS.join JS.nl originalContentLines),
   normalizeLineEndings (JS.join JS.nl newContentLines)).

Definition patchFileNameOr (patch : ParsedPatchType) (fallback : string) : string :=
  JS.or_default (JS.or_else (Diff.oldFileName patch) (Diff.newFileName patch)) fallback.

(** One turn of the loop of lines 100-147, returning [diffsShownCount]. *)
Definition showDiffForPatch {R} (patch : ParsedPatchType) (diffsShownCount : nat)
  : M R nat :=
  match Diff.hunks patch with
  | [] =>
      let patchFileName := patchFileNameOr patch "unknown file" in
      showInformationMessage
        ("Skipping diff view for " +:+ JS.strip_ab patchFileName +:+
         " as it has no changes (hunks).") ;;;
      ret diffsShownCount
  | _ =>
      tryCatch
        (let '(originalContent, newContent) := reconstruct (Diff.hunks patch) in
         originalDoc <- openUntitledDocument h originalContent "text" ;;
         newDoc <- openUntitledDocument h newContent "text" ;;
         let originalFileName :=
           if JS.truthy (Diff.oldFileName patch)
           then JS.strip_a (JS.show (Diff.oldFileName patch)) else "original.txt" in
         let newFileName :=
           if JS.truthy (Diff.newFileName patch)
           then JS.strip_b (JS.show (Diff.newFileName patch)) else "modified.txt" in
         let title := "Diff: " +:+ originalFileName +:+ "  ↔  " +:+ newFileName in
         executeDiff h originalDoc newDoc title ;;;
         ret (S diffsShownCount))
        (λ error,
         consoleError "Error showing diff for a patch:" error ;;;
         let patchFileName := patchFileNameOr patch "unknown file" in
         let errorMessage := message error in
         showErrorMessage
           ("Error processing diff view for " +:+ JS.strip_ab patchFileName +:+
            ": " +:+ errorMessage) ;;;
         postParseError
           ("Error (diff view for " +:+ JS.strip_ab patchFileName +:+ "): " +:+
            errorMessage) ;;;
         ret diffsShownCount)
  end.

Fixpoint showDiffs {R} (parsedPatches : list ParsedPatchType)
  (diffsShownCount : nat) : M R nat :=
  match parsedPatches with
  | [] => ret diffsShownCount
  | patch :: rest =>
      n <- showDiffForPatch patch diffsShownCount ;;
      showDiffs rest n
  end.

Definition processAndShowAllDiffs {R} (rawDiffText : string) : M R unit :=
  callFn
    (let cleanDiffText := cleanDiffInput rawDiffText in
     (match cleanDiffText with
      | EmptyString =>
          showInformationMessage
            "No diff content to process after cleaning markers." ;;;
          return_ tt
      | _ => ret tt
      end) ;;;
     parsedPatches <-
       tryCatch
         (parsed <- Diff_parsePatch h cleanDiffText ;;
          match parsed with
          | [] =>
              showErrorMessage
                "Could not parse the diff or no changes found. Is it a valid unified diff?" ;;;
              return_ tt
          | _ => ret parsed
          end)
         (λ error,
          consoleError "Error parsing diff:" error ;;;
          let errorMessage := message error in
          showErrorMessage ("Error parsing diff: " +:+ errorMessage) ;;;
          postParseError ("Error parsing diff: " +:+ errorMessage) ;;;
          return_ tt) ;;
     diffsShownCount <- showDiffs parsedPatches 0 ;;
     match diffsShownCount, parsedPatches with
     | S _, _ =>
         showInformationMessage
           ("Opened " +:+ pretty diffsShownCount +:+ " diff view(s).")
     | O, _ :: _ =>
         showWarningMessage
           "No diff views were opened. Check diff content or previous messages."
     | O, [] => ret tt
     end).

(** *** Applying one patch: [applySinglePatch] (lines 218-434) *)

Definition isNewFile (patch : ParsedPatchType) : bool :=
  bool_decide (Diff.oldFileName patch = Some "a/dev/null") ||
  bool_decide (Diff.oldFileName patch = Some "/dev/null").

Definition isDeletedFile (patch : ParsedPatchType) : bool :=
  bool_decide (Diff.newFileName patch = Some "b/dev/null") ||
  bool_decide (Diff.newFileName patch = Some "/dev/null").

(** Lines 222-241: [searchFileNameNormalized] and [displayFileName]. *)
Definition resolveNames (patch : ParsedPatchType) : M bool (string * string) :=
  let searchFileNameNormalized :=
    if isNewFile patch
    then JS.strip_b <$> Diff.newFileName patch
    else JS.strip_a <$> Diff.oldFileName patch in
  let displayFileName :=
    JS.or_default
      (JS.or_else searchFileNameNormalized (JS.strip_b <$> Diff.newFileName patch))
      "unknown_file" in
  if negb (JS.truthy searchFileNameNormalized)
     || bool_decide (searchFileNameNormalized = Some "/dev/null")
     || String.eqb (JS.trim (JS.show searchFileNameNormalized)) ""
  then
    if isNewFile patch && JS.truthy (Diff.newFileName patch)
    then
      let searchFileNameNormalized := JS.strip_b (JS.show (Diff.newFileName patch)) in
      ret (searchFileNameNormalized, searchFileNameNormalized)
    else
      showErrorMessage
        ("Could not determine a valid file name from patch: old='" +:+
         JS.show (Diff.oldFileName patch) +:+ "', new='" +:+
         JS.show (Diff.newFileName patch) +:+ "'. Skipping.") ;;;
      return_ false
  else ret (JS.show searchFileNameNormalized, displayFileName).

(** Lines 245-260: where to create a new file. *)
Definition askNewFilePath (searchFileNameNormalized : string) : M bool (option Uri) :=
  defaultPath <-
    match workspaceFolder h with
    | Some wsFolder => liftResult (joinPath h wsFolder searchFileNameNormalized)
    | None => ret searchFileNameNormalized
    end ;;
  chosenPathStr <-
    askInputBox h
      ("Enter path to create new file: " +:+ searchFileNameNormalized)
      defaultPath "Enter full path for the new file" ;;
  if JS.truthy chosenPathStr
  then
    targetFileUri <- liftResult (uriFile h (JS.show chosenPathStr)) ;;
    ret (Some targetFileUri)
  else
    showInformationMessage
      ("Creation of new file '" +:+ searchFileNameNormalized +:+ "' cancelled.") ;;;
    return_ false.

(** Lines 262-316: look for an existing file in the workspace. *)
Definition searchWorkspace (searchFileNameNormalized displayFileName : string)
  : M bool (option Uri) :=
  match workspaceFolder h with
  | None => ret None
  | Some wsFolder =>
      foundFilesUris <-
        tryCatch
          (potentialUri <- liftResult (joinPath h wsFolder searchFileNameNormalized) ;;
           tryCatch (fsStat h potentialUri ;;; ret [potentialUri]) (λ _, ret []))
          (λ _, ret []) ;;
      foundFilesUris <-
        match foundFilesUris with
        | [] =>
            tryCatch
              (let globPattern := "**/" +:+ JS.lastSegment searchFileNameNormalized in
               workspaceFindFiles h globPattern "**/node_modules/**" 5)
              (λ _, ret [])
        | _ => ret foundFilesUris
        end ;;
      match foundFilesUris with
      | [] => ret None
      | [found] =>
          let relativePath := asRelativePath h found in
          choice <-
            askQuickPick h
              ["Yes, Apply to this file"; "Choose Different File"; "Cancel"]
              ("Found: " +:+ relativePath +:+ " for patch target '" +:+
               displayFileName +:+ "'. Apply patch?") ;;
          if bool_decide (choice = Some "Yes, Apply to this file")
          then ret (Some found)
          else if bool_decide (choice = Some "Cancel") || bool_decide (choice = None)
          then
            showInformationMessage
              ("Patch application for '" +:+ displayFileName +:+ "' cancelled.") ;;;
            return_ false
          else ret None
      | _ =>
          let quickPickItems :=
            map (λ fUri, {| label := asRelativePath h fUri;
                            action := select_this_uri;
                            uri := Some fUri |}) foundFilesUris
            ++ [ {| label := "Choose Different File (Manually)";
                    action := choose_manually; uri := None |} ]
            ++ [ {| label := "Cancel"; action := cancel_operation; uri := None |} ] in
          chosenItem <-
            askQuickPickItems h quickPickItems
              ("Multiple files found for '" +:+ displayFileName +:+
               "'. Select one or choose manually:") ;;
          match chosenItem with
          | None
          | Some {| action := cancel_operation |} =>
              showInformationMessage
                ("Patch application for '" +:+ displayFileName +:+ "' cancelled.") ;;;
              return_ false
          | Some {| action := select_this_uri; uri := Some chosen |} => ret (Some chosen)
          | Some _ => ret None
          end
      end
  end.

(** Lines 318-340: the open dialog. *)
Definition pickManually (searchFileNameNormalized displayFileName : string)
  : M bool (option Uri) :=
  let defaultUri :=
    match workspaceFolder h with
    | Some wsFolder =>
        match joinPath h wsFolder searchFileNameNormalized with
        | inr joined => Some joined
        | inl _ => None
        end
    | None =>
        match searchFileNameNormalized with
        | EmptyString => None
        | _ =>
            match uriFile h searchFileNameNormalized with
            | inr file => Some file
            | inl _ => None
            end
        end
    end in
  uris <-
    askOpenDialog h
      ("Select Target File for Patch: '" +:+ displayFileName +:+ "'") defaultUri ;;
  match uris with
  | Some (first :: _) => ret (Some first)
  | _ =>
      showInformationMessage
        ("No file selected for '" +:+ displayFileName +:+
         "'. Patch application cancelled for this file.") ;;;
      return_ false
  end.

(** Lines 243-346: [targetFileUri]. *)
Definition chooseTarget (patch : ParsedPatchType)
  (searchFileNameNormalized displayFileName : string) : M bool Uri :=
  targetFileUri <-
    (if isNewFile patch
     then askNewFilePath searchFileNameNormalized
     else
       targetFileUri <- searchWorkspace searchFileNameNormalized displayFileName ;;
       match targetFileUri with
       | None => pickManually searchFileNameNormalized displayFileName
       | Some _ => ret targetFileUri
       end) ;;
  match targetFileUri with
  | None =>
      showErrorMessage
        ("Could not determine target file for patch '" +:+ displayFileName +:+
         "'. Skipping.") ;;;
      return_ false
  | Some target => ret target
  end.

(** Lines 352-365: does the target exist? *)
Definition statTarget (target : Uri) (displayFileName : string) : M bool bool :=
  tryCatch
    (stat <- fsStat h target ;;
     match stat with
     | Directory =>
         showErrorMessage
           ("Target path " +:+ asRelativePath h target +:+ " for '" +:+
            displayFileName +:+ "' is a directory. Cannot apply patch.") ;;;
         return_ false
     | File _ => ret true
     end)
    (λ e,
     if String.eqb (code e) "FileNotFound" || String.eqb (name e) "EntryNotFound"
     then ret false
     else throw e).

(** Lines 367-386: [originalFileContent]. *)
Definition readOriginal (patch : ParsedPatchType) (target : Uri)
  (displayFileName : string) (fileExists : bool) : M bool string :=
  if isNewFile patch
  then
    (if fileExists
     then
       overwrite <-
         askModalWarning h
           ("Target file " +:+ asRelativePath h target +:+
            " for new file patch '" +:+ displayFileName +:+
            "' already exists. Overwrite?")
           ["Overwrite"] ;;
       if bool_decide (overwrite = Some "Overwrite")
       then ret tt
       else
         showInformationMessage
           ("Patch application for new file '" +:+ displayFileName +:+
            "' cancelled due to existing file.") ;;;
         return_ false
     else ret tt) ;;;
    ret ""
  else
    if fileExists
    then fsReadFile h target
    else
      showErrorMessage
        ("Target file " +:+ asRelativePath h target +:+ " for '" +:+
         displayFileName +:+
         "' not found. Cannot apply modification/deletion patch.") ;;;
      return_ false.

(** Lines 403-425: what is done with the text the engine returned. *)
Definition commitResult (patch : ParsedPatchType) (target : Uri)
  (displayFileName patchedContentResult : string) : M bool unit :=
  if isDeletedFile patch
  then
    if String.eqb (JS.trim patchedContentResult) ""
    then
      fsDelete h target ;;;
      showInformationMessage
        ("Patch applied and file " +:+ asRelativePath h target +:+ " ('" +:+
         displayFileName +:+ "') successfully deleted.")
    else
      fsWriteFile h target patchedContentResult ;;;
      showWarningMessage
        ("Patch for deleting " +:+ asRelativePath h target +:+ " ('" +:+
         displayFileName +:+
         "') resulted in non-empty content. File was updated instead of deleted.") ;;;
      doc <- openTextDocument h target ;;
      showTextDocument h doc
  else
    fsWriteFile h target patchedContentResult ;;;
    showInformationMessage
      ("Patch successfully applied to " +:+ asRelativePath h target +:+ " ('" +:+
       displayFileName +:+ "').") ;;;
    match patchedContentResult with
    | String _ _ =>
        doc <- openTextDocument h target ;;
        showTextDocument h doc
    | EmptyString =>
        if isNewFile patch
        then
          showInformationMessage
            ("New file " +:+ asRelativePath h target +:+ " ('" +:+
             displayFileName +:+ "') was created empty by the patch.")
        else ret tt
    end.

(** Lines 348-433: the [try] block around reading, patching and writing. *)
Definition applyToTarget (patch : ParsedPatchType) (target : Uri)
  (displayFileName : string) : M bool bool :=
  tryCatch
    (fileExists <- statTarget target displayFileName ;;
     originalFileContent <- readOriginal patch target displayFileName fileExists ;;
     let normalizedOriginalContent := normalizeLineEndings originalFileContent in
     patchedContentResult <-
       Diff_applyPatch h normalizedOriginalContent patch 2 ;;
     match patchedContentResult with
     | None =>
         showErrorMessage
           ("Failed to apply patch to " +:+ asRelativePath h target +:+ " for '" +:+
            displayFileName +:+ "'. " +:+
            "File content might not match the patch's expected original state (even with fuzziness). " +:+
            "Ensure the correct file is selected and it has not been modified too extensively.") ;;;
         return_ false
     | Some patched =>
         commitResult patch target displayFileName patched ;;;
         return_ true
     end)
    (λ err,
     consoleError
       ("Error applying patch to " +:+ target +:+ " for '" +:+ displayFileName +:+ "':")
       err ;;;
     let relativePath := asRelativePath h target in
     let errorMessage := message err in
     showErrorMessage
       ("Error applying patch to " +:+ relativePath +:+ " ('" +:+ displayFileName +:+
        "'): " +:+ errorMessage) ;;;
     return_ false).

Definition applySinglePatch {R} (patchObjectToApply : ParsedPatchType) : M R bool :=
  callFn
    (names <- resolveNames patchObjectToApply ;;
     let '(searchFileNameNormalized, displayFileName) := names in
     targetFileUri <-
       chooseTarget patchObjectToApply searchFileNameNormalized displayFileName ;;
     applyToTarget patchObjectToApply targetFileUri displayFileName).

(** *** Applying all patches: [applyAllPatchesToFiles] (lines 156-216) *)

Record Counts := {
  appliedCount : nat;
  skippedCount : nat;
  errorCount : nat
}.

(** One turn of the loop of lines 186-206. *)
Definition applyOnePatch {R} (patchObjectToApply : ParsedPatchType) (c : Counts)
  : M R Counts :=
  let patchName := JS.strip_ab (patchFileNameOr patchObjectToApply "unknown_file") in
  match Diff.hunks patchObjectToApply with
  | [] =>
      showInformationMessage
        ("Skipping patch for '" +:+ patchName +:+ "' as it has no content/hunks.") ;;;
      ret {| appliedCount := appliedCount c;
             skippedCount := S (skippedCount c);
             errorCount := errorCount c |}
  | _ =>
      tryCatch
        (success <- applySinglePatch patchObjectToApply ;;
         if success : bool
         then ret {| appliedCount := S (appliedCount c);
                     skippedCount := skippedCount c;
                     errorCount := errorCount c |}
         else ret {| appliedCount := appliedCount c;
                     skippedCount := S (skippedCount c);
                     errorCount := errorCount c |})
        (λ err,
         let errorMessage := message err in
         showErrorMessage
           ("Critical error while processing patch for '" +:+ patchName +:+ "': " +:+
            errorMessage) ;;;
         ret {| appliedCount := appliedCount c;
                skippedCount := skippedCount c;
                errorCount := S (errorCount c) |})
  end.

Fixpoint applyPatches {R} (parsedPatches : list ParsedPatchType) (c : Counts)
  : M R Counts :=
  match parsedPatches with
  | [] => ret c
  | patch :: rest =>
      c' <- applyOnePatch patch c ;;
      applyPatches rest c'
  end.

Definition summaryMessage (c : Counts) : string :=
  "Patch application process finished. Applied: " +:+ pretty (appliedCount c) +:+
  ", Skipped/Cancelled: " +:+ pretty (skippedCount c) +:+
  ", Errors: " +:+ pretty (errorCount c) +:+ ".".

(** Lines 208-215. *)
Definition reportSummary {R} (c : Counts) : M R unit :=
  match errorCount c, appliedCount c with
  | S _, _ =>
      showErrorMessage (summaryMessage c +:+ " Check previous messages for details.")
  | O, S _ => showInformationMessage (summaryMessage c)
  | O, O =>
      showWarningMessage (summaryMessage c +:+ " No patches were successfully applied.")
  end.

(** Lines 163-180: parse, or report and leave. *)
Definition parseForApplying (cleanDiffText : string)
  : M unit (list ParsedPatchType) :=
  tryCatch
    (parsed <- Diff_parsePatch h cleanDiffText ;;
     match parsed with
     | [] =>
         showErrorMessage
           "Could not parse the diff for applying or no changes found. Ensure it is a valid unified diff format." ;;;
         postParseError "Could not parse the diff for applying or no changes found." ;;;
         return_ tt
     | _ => ret parsed
     end)
    (λ e,
     let errorMessage := message e in
     showErrorMessage ("Error parsing diff for applying: " +:+ errorMessage) ;;;
     postParseError ("Error parsing diff for applying: " +:+ errorMessage) ;;;
     return_ tt).

Definition applyAllPatchesToFiles {R} (rawDiffText : string) : M R unit :=
  callFn
    (let cleanDiffText := cleanDiffInput rawDiffText in
     (match cleanDiffText with
      | EmptyString =>
          showInformationMessage
            "No diff content to process for applying to file." ;;;
          return_ tt
      | _ => ret tt
      end) ;;;
     parsedPatches <- parseForApplying cleanDiffText ;;
     counts <-
       applyPatches parsedPatches
         {| appliedCount := 0; skippedCount := 0; errorCount := 0 |} ;;
     reportSummary counts).

(** *** The webview's messages (lines 38-60) *)

Inductive WebviewMessage :=
| applyDiff (value : string)
| applyPatchToFile (value : string)
| showError (msg : string).

Definition onDidReceiveMessage {R} (data : WebviewMessage) : M R unit :=
  callFn
    match data with
    | applyDiff value =>
        setCurrentRawDiffText value ;;;
        match value with
        | EmptyString =>
            showErrorMessage "Diff text is empty." ;;;
            return_ tt
        | _ => processAndShowAllDiffs value
        end
    | applyPatchToFile value =>
        w <- getWorld ;;
        let diffToApply :=
          match value with
          | EmptyString => currentRawDiffText w
          | _ => value
          end in
        match diffToApply with
        | EmptyString =>
            showErrorMessage "Diff text is empty. Paste a diff first." ;;;
            return_ tt
        | _ => applyAllPatchesToFiles diffToApply
        end
    | showError msg => showErrorMessage msg
    end.

End Provider.


(** ** The script of the webview: [media/main.js] *)

Module Page.

(** The text area [diffInput], the variable [lastKnownDiffText] and the text
    of the [error-message] element. *)
Record State := {
  diffInput : string;
  lastKnownDiffText : string;
  errorMessage : string
}.

(** The page as it is loaded: an empty text area, [let lastKnownDiffText =
    ''], an empty error element. *)
Definition initial : State :=
  {| diffInput := ""; lastKnownDiffText := ""; errorMessage := "" |}.

(** What happens to the page: the user changes the text of the text area
    (the browser then fires [input]), clicks one of the two buttons, or a
    message of the extension arrives. *)
Inductive Event :=
| UserInput (text : string)
| ClickCreateDiffView
| ClickApplyToFile
| FromExtension (type msg : string).

(** The listener of [input]. *)
Definition onInput (s : State) : State :=
  {| diffInput := diffInput s;
     lastKnownDiffText := diffInput s;
     errorMessage := "" |}.

(** The listener of [click] on [createDiffViewButton]: the new state and
    the messages posted to the extension. *)
Definition onCreateDiffViewClick (s : State) : State * list WebviewMessage :=
  let diffText := diffInput s in
  let s' := {| diffInput := diffInput s;
               lastKnownDiffText := diffText;
               errorMessage := "" |} in
  match JS.trim diffText with
  | EmptyString => (s', [showError "Diff input is empty."])
  | _ => (s', [applyDiff diffText])
  end.

(** The listener of [click] on [applyToFileButton]. *)
Definition onApplyToFileClick (s : State) : State * list WebviewMessage :=
  let diffText :=
    match JS.trim (diffInput s) with
    | EmptyString => lastKnownDiffText s
    | _ => diffInput s
    end in
  let s' := {| diffInput := diffInput s;
               lastKnownDiffText := lastKnownDiffText s;
               errorMessage := "" |} in
  match JS.trim diffText with
  | EmptyString =>
      (s', [showError "Diff input is empty. Create a diff view first or paste diff text."])
  | _ => (s', [applyPatchToFile diffText])
  end.

(** The listener of [message]. *)
Definition onMessage (type msg : string) (s : State) : State :=
  if String.eqb type "parseError"
  then {| diffInput := diffInput s;
          lastKnownDiffText := lastKnownDiffText s;
          errorMessage := msg |}
  else s.

Definition step (s : State) (e : Event) : State * list WebviewMessage :=
  match e with
  | UserInput text =>
      (onInput {| diffInput := text;
                  lastKnownDiffText := lastKnownDiffText s;
                  errorMessage := errorMessage s |}, [])
  | ClickCreateDiffView => onCreateDiffViewClick s
  | ClickApplyToFile => onApplyToFileClick s
  | FromExtension type msg => (onMessage type msg s, [])
  end.

(** The page after a sequence of events, and all that it has posted. *)
Fixpoint run (s : State) (es : list Event) : State * list WebviewMessage :=
  match es with
  | [] => (s, [])
  | e :: rest =>
      let '(s1, posted1) := step s e in
      let '(s2, posted2) := run s1 rest in
      (s2, posted1 ++ posted2)
  end.

End Page.
(** ** Reasoning about runs *)

(** [wp m Q w]: running [m] from [w] ends in a result and a world that
    satisfy [Q]. *)
Definition wp {R A} (m : M R A) (Q : Res R A → World → Prop) (w : World) : Prop :=
  Q (m w).1 (m w).2.

(** The calls made between two worlds. *)
Definition callsBetween (w w' : World) (evs : list Event) : Prop :=
  trace w' = evs ++ trace w.

(** Between [w0] and [w] only calls that satisfy [P] were made. *)
Definition onlyCalls (P : Event → Prop) (w0 w : World) : Prop :=
  ∃ evs, callsBetween w0 w evs ∧ Forall P evs.

(** ** Kinds of calls *)

Definition isEngineCall (e : Event) : bool :=
  match e with
  | ApplyPatch _ _ _ _ => true
  | _ => false
  end.

(** A call that changes a file. *)
Definition isFileChange (e : Event) : bool :=
  match e with
  | FsWriteFile _ _ | FsDelete _ => true
  | _ => false
  end.

Definition isWrite (e : Event) : bool :=
  match e with
  | FsWriteFile _ _ => true
  | _ => false
  end.

Definition isDelete (e : Event) : bool :=
  match e with
  | FsDelete _ => true
  | _ => false
  end.

(** No call to the patch engine other than with a fuzz factor of 2. *)
Definition fuzzIsTwo (e : Event) : Prop :=
  match e with
  | ApplyPatch _ _ fuzzFactor _ => fuzzFactor = 2%Z
  | _ => True
  end.

(** A run in which a file-creation patch is applied reads no file and calls
    the engine on the empty text only. *)
Definition creationCall (patch : ParsedPatchType) (e : Event) : Prop :=
  match e with
  | FsReadFile _ => False
  | ApplyPatch source patch' fuzzFactor _ =>
      source = "" ∧ patch' = patch ∧ fuzzFactor = 2%Z
  | _ => True
  end.


(** What the steps before the [try] block (lines 219-346) may call: messages,
    prompts, [fs.stat] and [findFiles]. *)
Definition isResolutionEvent (e : Event) : Prop :=
  match e with
  | ShowInformationMessage _ | ShowErrorMessage _
  | ShowInputBox _ _ _ _ | ShowQuickPick _ _ _ | ShowQuickPickItems _ _ _
  | ShowOpenDialog _ _ _ | FsStat _ | FindFiles _ _ _ => True
  | _ => False
  end.

(** What holds of a world reached from [w] by the steps before the [try]
    block: only their calls were made, and the files and the fields of the
    provider are the same. *)
Definition resolved (w w' : World) : Prop :=
  ∃ evs, callsBetween w w' evs ∧ Forall isResolutionEvent evs ∧
         fs w' = fs w ∧ view w' = view w ∧
         currentRawDiffText w' = currentRawDiffText w.

(** These steps leave the function with [false] only. *)
Definition leavesWithFalse {A} (r : Res bool A) : Prop :=
  match r with
  | Returned b => b = false
  | _ => True
  end.

(** The preview touches no file of the workspace. *)
Definition isPreviewEvent (e : Event) : Prop :=
  match e with
  | FsStat _ | FsReadFile _ | FsWriteFile _ _ | FsDelete _ | FindFiles _ _ _
  | ApplyPatch _ _ _ _ | OpenTextDocument _ => False
  | _ => True
  end.

(** Between [w0] and [w] the preview has made calls of its own only and
    the files are those of [w0]. *)
Definition previewed (w0 w : World) : Prop :=
  onlyCalls isPreviewEvent w0 w ∧ fs w = fs w0.

(** ** Messages and counts *)

(** The message of lines 395-399. *)
Definition failedToApplyMessage (h : Host) (target : Uri) (displayFileName : string)
  : string :=
  "Failed to apply patch to " +:+ asRelativePath h target +:+ " for '" +:+
  displayFileName +:+ "'. " +:+
  "File content might not match the patch's expected original state (even with fuzziness). " +:+
  "Ensure the correct file is selected and it has not been modified too extensively.".

(** The messages of lines 406 and 410. *)
Definition deletedMessage (h : Host) (target : Uri) (displayFileName : string)
  : string :=
  "Patch applied and file " +:+ asRelativePath h target +:+ " ('" +:+
  displayFileName +:+ "') successfully deleted.".

Definition notDeletedWarning (h : Host) (target : Uri) (displayFileName : string)
  : string :=
  "Patch for deleting " +:+ asRelativePath h target +:+ " ('" +:+
  displayFileName +:+
  "') resulted in non-empty content. File was updated instead of deleted.".

(** What [applyAllPatchesToFiles] shows when the parser throws [e] (lines
    173-180) and when it returns no patch (lines 166-172): the error
    message, and the same to the webview when there is one. *)
Definition parseErrorCalls (w : World) (text shown posted : string) : list Event :=
  (if view w then [PostMessage "parseError" posted] else [])
  ++ [ShowErrorMessage shown; ParsePatch text].

Definition thrownParseErrorCalls (w : World) (text : string) (e : JsError)
  : list Event :=
  parseErrorCalls w text
    ("Error parsing diff for applying: " +:+ message e)
    ("Error parsing diff for applying: " +:+ message e).


(** ** A session in the words of the claims *)

(** What becomes of one parsed patch: it is applied, it is skipped or
    cancelled, or applying it fails with an error that was not caught. *)
Inductive Outcome :=
| Applied
| SkippedOrCancelled
| Failed.

#[global] Instance Outcome_eq_dec : EqDecision Outcome.
Proof. solve_decision. Defined.

(** The world after one more call. *)
Definition afterCall (e : Event) (w : World) : World :=
  {| fs := fs w; trace := e :: trace w; view := view w;
     currentRawDiffText := currentRawDiffText w |}.

(** The message of line 189. *)
Definition skippedMessage (patch : ParsedPatchType) : Event :=
  ShowInformationMessage
    ("Skipping patch for '" +:+ JS.strip_ab (patchFileNameOr patch "unknown_file") +:+
     "' as it has no content/hunks.").

(** The message of line 204. *)
Definition criticalErrorMessage (patch : ParsedPatchType) (e : JsError) : Event :=
  ShowErrorMessage
    ("Critical error while processing patch for '" +:+
     JS.strip_ab (patchFileNameOr patch "unknown_file") +:+ "': " +:+ message e).

(** One patch of a session. A patch without hunks is skipped with a
    message. Any other patch is handed to [applySinglePatch]: it is applied
    when that call returns [true], skipped or cancelled when it returns
    [false], and failed, with a message, when it throws. *)
Definition turn (h : Host) (patch : ParsedPatchType) (w : World) : Outcome * World :=
  match Diff.hunks patch with
  | [] => (SkippedOrCancelled, afterCall (skippedMessage patch) w)
  | _ =>
      match applySinglePatch (R:=unit) h patch w with
      | (Normal true, w') => (Applied, w')
      | (Thrown e, w') => (Failed, afterCall (criticalErrorMessage patch e) w')
      | (_, w') => (SkippedOrCancelled, w')
      end
  end.

(** All patches in order, each from the world that the one before it has
    left, whatever its outcome. *)
Fixpoint turns (h : Host) (patches : list ParsedPatchType) (w : World)
  : list Outcome * World :=
  match patches with
  | [] => ([], w)
  | patch :: rest =>
      let '(outcome, w1) := turn h patch w in
      let '(outcomes, w2) := turns h rest w1 in
      (outcome :: outcomes, w2)
  end.

Definition countOutcome (o : Outcome) (outcomes : list Outcome) : nat :=
  length (List.filter (λ o', bool_decide (o' = o)) outcomes).

(** The summary of lines 208-215 for the three counts: an error when there
    are errors, else an information when a patch was applied, else a
    warning. *)
Definition summaryText (applied skipped errors : nat) : string :=
  "Patch application process finished. Applied: " +:+ pretty applied +:+
  ", Skipped/Cancelled: " +:+ pretty skipped +:+
  ", Errors: " +:+ pretty errors +:+ ".".

Definition summaryCall (applied skipped errors : nat) : Event :=
  match errors, applied with
  | S _, _ =>
      ShowErrorMessage
        (summaryText applied skipped errors +:+ " Check previous messages for details.")
  | O, S _ => ShowInformationMessage (summaryText applied skipped errors)
  | O, O =>
      ShowWarningMessage
        (summaryText applied skipped errors +:+ " No patches were successfully applied.")
  end.

(** The world after a session over [patches] that starts in [w]: the calls
    for the patches, then the summary with the numbers of the three
    outcomes. *)
Definition afterSession (h : Host) (patches : list ParsedPatchType) (w : World)
  : World :=
  let outcomes := (turns h patches w).1 in
  afterCall
    (summaryCall (countOutcome Applied outcomes)
       (countOutcome SkippedOrCancelled outcomes)
       (countOutcome Failed outcomes))
    (turns h patches w).2.

(** A message that reports a failure of the parser (lines 86, 92, 167 and
    175). *)
Definition isParseErrorMessage (msg : string) : bool :=
  JS.startsWith msg "Error parsing diff" || JS.startsWith msg "Could not parse the diff".

(** A call made for [patch] while it is applied: no call of the parser, no
    report of a parse error, nothing of the preview; the engine is called
    with this very patch, the fuzz factor 2 and a text without carriage
    return. *)
Definition isCallFor (patch : ParsedPatchType) (e : Event) : Prop :=
  match e with
  | ParsePatch _ | PostMessage _ _ | OpenUntitledDocument _ _ | ExecuteDiff _ _ _ => False
  | ShowErrorMessage msg => isParseErrorMessage msg = false
  | ApplyPatch source patch' fuzzFactor _ =>
      patch' = patch ∧ fuzzFactor = 2%Z ∧ JS.contains JS.CR source = false
  | _ => True
  end.

Definition isCallForOneOf (patches : list ParsedPatchType) (e : Event) : Prop :=
  ∃ patch, In patch patches ∧ isCallFor patch e.



(** ** The contracts in the words of the specification *)


(** The Line Classifier of the specification: the marker and the payload. *)
Inductive Line :=
| Context (text : string)
| Added (text : string)
| Removed (text : string)
| Other.

Definition classify (line : string) : Line :=
  match line with
  | String " " text => Context text
  | String "+" text => Added text
  | String "-" text => Removed text
  | _ => Other
  end.

Definition originalPayload (l : Line) : option string :=
  match l with
  | Context text | Removed text => Some text
  | _ => None
  end.

Definition modifiedPayload (l : Line) : option string :=
  match l with
  | Context text | Added text => Some text
  | _ => None
  end.




(** White space only. *)
Fixpoint allWhiteSpace (s : string) : bool :=
  match s with
  | EmptyString => true
  | String c r => JS.isWhiteSpace c && allWhiteSpace r
  end.

(** The lines of a text. *)
Fixpoint splitLines (s : string) : list string :=
  match s with
  | EmptyString => [EmptyString]
  | String c r =>
      if Ascii.eqb c JS.LF then EmptyString :: splitLines r
      else match splitLines r with
           | [] => [String c EmptyString]
           | l :: ls => String c l :: ls
           end
  end.

(** Modelled from the spec: the marker pair that the File-Patch Parser
    looks for, a line that begins with [--- ] followed by a line that
    begins with [+++ ]. *)
Fixpoint hasMarkerPairIn (ls : list string) : bool :=
  match ls with
  | old :: (new :: _) as rest =>
      (JS.startsWith old "--- " && JS.startsWith new "+++ ") || hasMarkerPairIn rest
  | _ => false
  end.

Definition hasMarkerPair (text : string) : bool := hasMarkerPairIn (splitLines text).

(** ** Concrete runs *)

Module Scenario.

(** A host with the workspace folder [/ws]: paths are joined with a
    slash, the user accepts what is proposed (the default path, the first
    item, the only button), no call fails. The answers of the [diff]
    package are those given. *)
Definition host (parse : string → JsError + list ParsedPatchType)
  (apply : string → ParsedPatchType → Z → option string) : Host := {|
  parsePatch := parse;
  applyPatch := apply;
  workspaceFolder := Some "/ws";
  joinPath := λ base rel, inr (base +:+ "/" +:+ rel);
  uriFile := λ path, inr path;
  asRelativePath := λ target, target;
  findFiles := λ _ _ _ _, inr [];
  untitledUri := λ _ content, "untitled:" +:+ content;
  showInputBox := λ _ _ value _, Some value;
  showQuickPick := λ _ _ _, Some 0;
  showQuickPickItems := λ _ _ _, Some 0;
  showOpenDialog := λ _ _ _, None;
  showModalWarning := λ _ _ _, Some 0;
  fault := λ _ _, None
|}.

Definition world (files : gmap string Node) : World :=
  {| fs := files; trace := []; view := true; currentRawDiffText := "" |}.

Definition lines (ls : list string) : string :=
  String.concat "" ((λ l, l +:+ JS.nl) <$> ls).

(** [f.txt]: the line [b] becomes [B]. *)
Definition modification : ParsedPatchType := {|
  Diff.index := None;
  Diff.oldFileName := Some "a/f.txt";
  Diff.newFileName := Some "b/f.txt";
  Diff.oldHeader := Some "";
  Diff.newHeader := Some "";
  Diff.hunks :=
    [ {| Diff.oldStart := JS.Int 1; Diff.oldLines := JS.Int 3;
         Diff.newStart := JS.Int 1; Diff.newLines := JS.Int 3;
         Diff.lines := [" a"; "-b"; "+B"; " c"] |} ]
|}.

(** A new file [n.txt] with the lines [x] and [y]. *)
Definition creation : ParsedPatchType := {|
  Diff.index := None;
  Diff.oldFileName := Some "/dev/null";
  Diff.newFileName := Some "b/n.txt";
  Diff.oldHeader := Some "";
  Diff.newHeader := Some "";
  Diff.hunks :=
    [ {| Diff.oldStart := JS.Int 1; Diff.oldLines := JS.Int 0;
         Diff.newStart := JS.Int 1; Diff.newLines := JS.Int 2;
         Diff.lines := ["+x"; "+y"] |} ]
|}.

(** [f.txt] is deleted; the hunk removes the line [a] and keeps the empty
    line after it as context. *)
Definition deletion : ParsedPatchType := {|
  Diff.index := None;
  Diff.oldFileName := Some "a/f.txt";
  Diff.newFileName := Some "/dev/null";
  Diff.oldHeader := Some "";
  Diff.newHeader := Some "";
  Diff.hunks :=
    [ {| Diff.oldStart := JS.Int 1; Diff.oldLines := JS.Int 2;
         Diff.newStart := JS.Int 1; Diff.newLines := JS.Int 1;
         Diff.lines := ["-a"; " "] |} ]
|}.

(** The engine returns the text that the table gives for the source, and
    finds no place for the hunks in any other source. *)
Fixpoint answering (table : list (string * string))
  : string → ParsedPatchType → Z → option string :=
  λ source patch fuzzFactor,
    match table with
    | [] => None
    | (source', result) :: rest =>
        if decide (source = source') then Some result
        else answering rest source patch fuzzFactor
    end.

Definition rejecting : string → ParsedPatchType → Z → option string :=
  answering [].

Definition noParse : string → JsError + list ParsedPatchType :=
  λ _, inr [].

End Scenario.

Module ScenarioParsers.

(** The parser gives up on the whole text. *)
Definition failing (e : JsError) : string → JsError + list ParsedPatchType :=
  λ _, inl e.

(** The parser returns these patches. *)
Definition returning (patches : list ParsedPatchType)
  : string → JsError + list ParsedPatchType :=
  λ _, inr patches.

(** Two file sections: the first changes [f.txt], the header of the hunk
    of the second does not have the form [@@ -a,b +c,d @@]. *)
Definition twoSections : string :=
  Scenario.lines
    [ "--- a/f.txt"; "+++ b/f.txt"; "@@ -1,3 +1,3 @@"; " a"; "-b"; "+B"; " c";
      "--- a/g.txt"; "+++ b/g.txt"; "@@ -x,y +1 @@"; "+z" ].

(** Two well-formed sections: [f.txt] is changed and [n.txt] is new. *)
Definition twoGoodSections : string :=
  Scenario.lines
    [ "--- a/f.txt"; "+++ b/f.txt"; "@@ -1,3 +1,3 @@"; " a"; "-b"; "+B"; " c";
      "--- /dev/null"; "+++ b/n.txt"; "@@ -0,0 +1,2 @@"; "+x"; "+y" ].

(** An error with which a parser gives up on a text. *)
Definition secondSectionError : JsError :=
  {| code := ""; name := "Error";
     message := "Hunk at line 10 has a malformed header" |}.

(** The second section of [twoSections] as a patch: the numbers of a
    header that is not one are [NaN], a missing length is 1, and the old
    length of a hunk that removes no line is set to 0. *)
Definition malformedSection : ParsedPatchType := {|
  Diff.index := None;
  Diff.oldFileName := Some "a/g.txt";
  Diff.newFileName := Some "b/g.txt";
  Diff.oldHeader := Some "";
  Diff.newHeader := Some "";
  Diff.hunks :=
    [ {| Diff.oldStart := JS.NaN; Diff.oldLines := JS.Int 0;
         Diff.newStart := JS.NaN; Diff.newLines := JS.Int 1;
         Diff.lines := ["+z"] |} ]
|}.


(** Neither an error message nor a message to the webview. *)
Definition reportsNoError (e : Event) : Prop :=
  match e with
  | ShowErrorMessage _ | PostMessage _ _ | ConsoleError _ _ => False
  | _ => True
  end.

End ScenarioParsers.

Module ScenarioLineEndings.

Definition cr : string := String JS.CR EmptyString.

(** A diff text with Windows line endings: in [f.txt] the line [a] becomes
    [b]. *)
Definition text : string :=
  String.concat (cr +:+ JS.nl) ["--- a/f.txt"; "+++ b/f.txt"; "@@ -1 +1 @@"; "-a"; "+b"].

(** The patch of that text when the lines of a hunk keep their carriage
    return. *)
Definition patch : ParsedPatchType := {|
  Diff.index := None;
  Diff.oldFileName := Some "a/f.txt";
  Diff.newFileName := Some "b/f.txt";
  Diff.oldHeader := Some "";
  Diff.newHeader := Some "";
  Diff.hunks :=
    [ {| Diff.oldStart := JS.Int 1; Diff.oldLines := JS.Int 1;
         Diff.newStart := JS.Int 1; Diff.newLines := JS.Int 1;
         Diff.lines := ["-a" +:+ cr; "+b"] |} ]
|}.

(** Two context lines, the first with a carriage return at its end. *)
Definition hunk : Diff.Hunk :=
  {| Diff.oldStart := JS.Int 1; Diff.oldLines := JS.Int 2;
     Diff.newStart := JS.Int 1; Diff.newLines := JS.Int 2;
     Diff.lines := [" a" +:+ cr; " b"] |}.

End ScenarioLineEndings.

(** ** Further predicates and measures *)

(** The number of CR LF pairs of a text. *)
Fixpoint countCRLF (s : string) : nat :=
  match s with
  | EmptyString => 0
  | String c r =>
      match r with
      | String c' r' =>
          if Ascii.eqb c JS.CR && Ascii.eqb c' JS.LF
          then S (countCRLF r')
          else countCRLF r
      | EmptyString => 0
      end
  end.

(** A line of a hunk that is on one side at least: it begins with a space,
    a plus or a minus. *)
Definition isBodyLine (line : string) : bool :=
  match classify line with
  | Other => false
  | _ => true
  end.

(** A hunk without its other lines, such as the marker [\ No newline at end
    of file]. *)
Definition withoutOtherLines (hunk : Diff.Hunk) : Diff.Hunk :=
  {| Diff.oldStart := Diff.oldStart hunk; Diff.oldLines := Diff.oldLines hunk;
     Diff.newStart := Diff.newStart hunk; Diff.newLines := Diff.newLines hunk;
     Diff.lines := List.filter isBodyLine (Diff.lines hunk) |}.

(** The host never fails a call. *)
Definition neverFails (h : Host) : Prop := ∀ w e, fault h w e = None.

(** The number of calls of a kind. *)
Fixpoint countCalls (kind : Event → bool) (evs : list Event) : nat :=
  match evs with
  | [] => 0
  | e :: rest => (if kind e then 1 else 0) + countCalls kind rest
  end.

Definition isExecuteDiff (e : Event) : bool :=
  match e with
  | ExecuteDiff _ _ _ => true
  | _ => false
  end.

Definition hasHunks (patch : ParsedPatchType) : bool :=
  match Diff.hunks patch with
  | [] => false
  | _ => true
  end.

(** What the preview shows when the parser throws [e] (lines 89-97) and
    when it returns no patch (lines 85-88). *)
Definition previewThrownCalls (w : World) (text : string) (e : JsError) : list Event :=
  (if view w then [PostMessage "parseError" ("Error parsing diff: " +:+ message e)]
   else [])
  ++ [ ShowErrorMessage ("Error parsing diff: " +:+ message e);
       ConsoleError "Error parsing diff:" e;
       ParsePatch text ].

Definition previewNoPatchesCalls (text : string) : list Event :=
  [ ShowErrorMessage
      "Could not parse the diff or no changes found. Is it a valid unified diff?";
    ParsePatch text ].

(** The last message of the preview (lines 149-153) for [n] views. *)
Definition previewSummary (n : nat) : Event :=
  match n with
  | O => ShowWarningMessage
           "No diff views were opened. Check diff content or previous messages."
  | S _ => ShowInformationMessage ("Opened " +:+ pretty n +:+ " diff view(s).")
  end.

(** The result is a value: no early return is pending and nothing is
    thrown. *)
Definition isNormal {R A} (r : Res R A) : Prop := ∃ a, r = Normal a.

(** The number of patches with at least one hunk. *)
Definition countWithHunks (patches : list ParsedPatchType) : nat :=
  length (List.filter hasHunks patches).

(** The two calls of [applySinglePatch] that are outside every [try]
    block, both for a patch that creates a file: joining the workspace
    folder and the file name of the patch (line 247), and making the URI
    of the path that the user has typed (line 256). One of them throws [e]
    in a run from [w], after the calls [evs]. *)
Definition throwsOutsideTry (h : Host) (patch : ParsedPatchType) (w : World)
  (evs : list Event) (e : JsError) : Prop :=
  isNewFile patch = true ∧
  ∃ name, Diff.newFileName patch = Some name ∧
    ((∃ wsFolder,
        workspaceFolder h = Some wsFolder ∧
        joinPath h wsFolder (JS.strip_b name) = inl e ∧
        evs = []) ∨
     (∃ defaultPath chosen,
        showInputBox h w ("Enter path to create new file: " +:+ JS.strip_b name)
          defaultPath "Enter full path for the new file" = Some chosen ∧
        evs = [ ShowInputBox ("Enter path to create new file: " +:+ JS.strip_b name)
                  defaultPath "Enter full path for the new file" (Some chosen) ] ∧
        uriFile h chosen = inl e)).

Module ScenarioMore.

(** [f.txt] is named, nothing is changed. *)
Definition withoutHunks : ParsedPatchType := {|
  Diff.index := None;
  Diff.oldFileName := Some "a/f.txt";
  Diff.newFileName := Some "b/f.txt";
  Diff.oldHeader := Some "";
  Diff.newHeader := Some "";
  Diff.hunks := []
|}.

(** A patch as the parser returns it for a text without file headers. *)
Definition withoutNames : ParsedPatchType := {|
  Diff.index := None;
  Diff.oldFileName := None;
  Diff.newFileName := None;
  Diff.oldHeader := None;
  Diff.newHeader := None;
  Diff.hunks :=
    [ {| Diff.oldStart := JS.Int 1; Diff.oldLines := JS.Int 1;
         Diff.newStart := JS.Int 1; Diff.newLines := JS.Int 1;
         Diff.lines := ["-a"; "+b"] |} ]
|}.

(** The host of [Scenario] with other answers of the user and other
    faults. *)
Definition hostWith (parse : string → JsError + list ParsedPatchType)
  (apply : string → ParsedPatchType → Z → option string)
  (join : Uri → string → JsError + Uri)
  (inputBox : option string) (modal : option nat)
  (faults : Event → option JsError) : Host := {|
  parsePatch := parse;
  applyPatch := apply;
  workspaceFolder := Some "/ws";
  joinPath := join;
  uriFile := λ path, inr path;
  asRelativePath := λ target, target;
  findFiles := λ _ _ _ _, inr [];
  untitledUri := λ _ content, "untitled:" +:+ content;
  showInputBox := λ _ _ value _, inputBox;
  showQuickPick := λ _ _ _, Some 0;
  showQuickPickItems := λ _ _ _, Some 0;
  showOpenDialog := λ _ _ _, None;
  showModalWarning := λ _ _ _, modal;
  fault := λ _ e, faults e
|}.

Definition slashJoin : Uri → string → JsError + Uri :=
  λ base rel, inr (base +:+ "/" +:+ rel).

Definition noFaults : Event → option JsError := λ _, None.

(** The host of [Scenario], except that no path can be made a URI. *)
Definition uriError : JsError :=
  {| code := ""; name := "Error"; message := "[UriError]: invalid path" |}.

Definition hostWithoutUris (parse : string → JsError + list ParsedPatchType)
  (apply : string → ParsedPatchType → Z → option string) : Host := {|
  parsePatch := parse;
  applyPatch := apply;
  workspaceFolder := Some "/ws";
  joinPath := slashJoin;
  uriFile := λ _, inl uriError;
  asRelativePath := λ target, target;
  findFiles := λ _ _ _ _, inr [];
  untitledUri := λ _ content, "untitled:" +:+ content;
  showInputBox := λ _ _ value _, Some value;
  showQuickPick := λ _ _ _, Some 0;
  showQuickPickItems := λ _ _ _, Some 0;
  showOpenDialog := λ _ _ _, None;
  showModalWarning := λ _ _ _, Some 0;
  fault := λ _ _, None
|}.

Definition editorError : JsError :=
  {| code := ""; name := "Error"; message := "cannot open the document" |}.

(** Only opening a document in the editor fails. *)
Definition editorFails : Event → option JsError :=
  λ e, match e with
       | OpenTextDocument _ => Some editorError
       | _ => None
       end.

End ScenarioMore.

(** A prompt for a path, or a message. *)
Definition isPathPromptOrMessage (e : Event) : Prop :=
  match e with
  | ShowInputBox _ _ _ _ | ShowInformationMessage _ | ShowErrorMessage _ => True
  | _ => False
  end.

(** The user dismisses every input box, or leaves it empty. *)
Definition dismissesInputBox (h : Host) : Prop :=
  ∀ w prompt value placeHolder,
    JS.truthy (showInputBox h w prompt value placeHolder) = false.

(** The user never presses the button of a modal warning. *)
Definition neverConfirms (h : Host) : Prop :=
  ∀ w msg items, showModalWarning h w msg items = None.

(** [fs.stat] fails only for what does not exist. *)
Definition statIsReliable (h : Host) : Prop :=
  ∀ w target, fault h w (FsStat target) = None.

(** Opening a document in the editor fails, and nothing else does. *)
Definition onlyEditorFails (h : Host) (err : JsError) : Prop :=
  ∀ w e, fault h w e = match e with
                       | OpenTextDocument _ => Some err
                       | _ => None
                       end.

(** The message of line 416. *)
Definition appliedMessage (h : Host) (target : Uri) (displayFileName : string)
  : string :=
  "Patch successfully applied to " +:+ asRelativePath h target +:+ " ('" +:+
  displayFileName +:+ "').".

(** A message of the page whose text, if it has one, is not blank. *)
Definition notBlank (msg : WebviewMessage) : Prop :=
  match msg with
  | applyDiff value | applyPatchToFile value => JS.trim value ≠ ""
  | showError _ => True
  end.

(** The world in which the provider's field [_currentRawDiffText] is
    [text]. *)
Definition withCurrentRawDiffText (text : string) (w : World) : World :=
  {| fs := fs w; trace := trace w; view := view w; currentRawDiffText := text |}.

(** What the handler of the provider does with a message of the page whose
    text is not empty. *)
Definition handled (h : Host) (msg : WebviewMessage) : M unit unit :=
  match msg with
  | applyDiff value =>
      λ w, processAndShowAllDiffs h value (withCurrentRawDiffText value w)
  | applyPatchToFile value => applyAllPatchesToFiles h value
  | showError msg => emit (ShowErrorMessage msg)
  end.
(** * Proofs *)

(** ** Rules for [wp] *)

Lemma wp_ret {R A} (a : A) (Q : Res R A → World → Prop) w :
  Q (Normal a) w → wp (ret a) Q w.
Proof. done. Qed.

Lemma wp_return {R A} (r : R) (Q : Res R A → World → Prop) w :
  Q (Returned r) w → wp (return_ r) Q w.
Proof. done. Qed.

Lemma wp_throw {R A} (e : JsError) (Q : Res R A → World → Prop) w :
  Q (Thrown e) w → wp (throw e) Q w.
Proof. done. Qed.

Lemma wp_bind {R A B} (m : M R A) (k : A → M R B) Q w :
  wp m (λ r w', match r with
                | Normal a => wp (k a) Q w'
                | Returned x => Q (Returned x) w'
                | Thrown e => Q (Thrown e) w'
                end) w →
  wp (bind m k) Q w.
Proof. unfold wp, bind. by destruct (m w) as [[?|?|?] ?]. Qed.

Lemma wp_tryCatch {R A} (m : M R A) (handler : JsError → M R A) Q w :
  wp m (λ r w', match r with
                | Thrown e => wp (handler e) Q w'
                | other => Q other w'
                end) w →
  wp (tryCatch m handler) Q w.
Proof. unfold wp, tryCatch. by destruct (m w) as [[?|?|?] ?]. Qed.

Lemma wp_callFn {R R'} (body : M R R) (Q : Res R' R → World → Prop) w :
  wp body (λ r w', match r with
                   | Normal x | Returned x => Q (Normal x) w'
                   | Thrown e => Q (Thrown e) w'
                   end) w →
  wp (callFn body) Q w.
Proof. unfold wp, callFn. by destruct (body w) as [[?|?|?] ?]. Qed.

Lemma wp_getWorld {R} (Q : Res R World → World → Prop) w :
  Q (Normal w) w → wp getWorld Q w.
Proof. done. Qed.

Lemma wp_emit {R} (e : Event) (Q : Res R unit → World → Prop) w :
  Q (Normal tt) {| fs := fs w; trace := e :: trace w; view := view w;
                   currentRawDiffText := currentRawDiffText w |} →
  wp (emit e) Q w.
Proof. done. Qed.

Lemma wp_modifyFs {R} f (Q : Res R unit → World → Prop) w :
  Q (Normal tt) {| fs := f (fs w); trace := trace w; view := view w;
                   currentRawDiffText := currentRawDiffText w |} →
  wp (modifyFs f) Q w.
Proof. done. Qed.

Lemma wp_setCurrentRawDiffText {R} text (Q : Res R unit → World → Prop) w :
  Q (Normal tt) {| fs := fs w; trace := trace w; view := view w;
                   currentRawDiffText := text |} →
  wp (setCurrentRawDiffText text) Q w.
Proof. done. Qed.

Lemma wp_mono {R A} (m : M R A) (Q Q' : Res R A → World → Prop) w :
  wp m Q w → (∀ r w', Q r w' → Q' r w') → wp m Q' w.
Proof. unfold wp. auto. Qed.

Lemma callsBetween_refl w : callsBetween w w [].
Proof. done. Qed.

Lemma callsBetween_trans w1 w2 w3 evs1 evs2 :
  callsBetween w1 w2 evs1 → callsBetween w2 w3 evs2 →
  callsBetween w1 w3 (evs2 ++ evs1).
Proof. unfold callsBetween. intros H1 H2. by rewrite H2, H1, app_assoc. Qed.

Lemma callsBetween_proj w w' evs f v c :
  callsBetween w w' evs →
  callsBetween w {| fs := f; trace := trace w'; view := v; currentRawDiffText := c |} evs.
Proof. done. Qed.

Lemma callsBetween_push w t e evs f v c :
  callsBetween w {| fs := f; trace := t; view := v; currentRawDiffText := c |} evs →
  callsBetween w {| fs := f; trace := e :: t; view := v; currentRawDiffText := c |}
    (e :: evs).
Proof. unfold callsBetween. simpl. by intros ->. Qed.

Create HintDb provider.

#[export] Hint Unfold
  showInformationMessage showWarningMessage showErrorMessage consoleError
  postParseError askInputBox askQuickPick askQuickPickItems askOpenDialog
  askModalWarning hostCall fsStat fsReadFile fsWriteFile fsDelete
  workspaceFindFiles openTextDocument openUntitledDocument showTextDocument
  executeDiff Diff_parsePatch Diff_applyPatch liftResult
  resolveNames askNewFilePath searchWorkspace pickManually chooseTarget
  statTarget readOriginal commitResult applyToTarget : provider.

Ltac wp_simpl :=
  cbn beta iota zeta delta [fs trace view currentRawDiffText fst snd].

Ltac wp_step :=
  lazymatch goal with
  | |- wp (ret _) _ _ => apply wp_ret
  | |- wp (return_ _) _ _ => apply wp_return
  | |- wp (throw _) _ _ => apply wp_throw
  | |- wp (bind _ _) _ _ => apply wp_bind
  | |- wp (tryCatch _ _) _ _ => apply wp_tryCatch
  | |- wp (callFn _) _ _ => apply wp_callFn
  | |- wp getWorld _ _ => apply wp_getWorld
  | |- wp (emit _) _ _ => apply wp_emit
  | |- wp (modifyFs _) _ _ => apply wp_modifyFs
  | |- wp (setCurrentRawDiffText _) _ _ => apply wp_setCurrentRawDiffText
  | |- wp (match ?x with _ => _ end) _ _ => destruct x eqn:?
  end; wp_simpl.

Ltac wp_run := autounfold with provider; wp_simpl; repeat wp_step.

Ltac calls_tac :=
  repeat first
    [ eassumption
    | apply callsBetween_refl
    | apply callsBetween_push
    | apply callsBetween_proj ].

Ltac events_tac :=
  repeat first [ assumption | apply Forall_nil_2 | apply Forall_cons_2 ];
  try exact I; try reflexivity.

Ltac leaf_tac := eexists; split; [ calls_tac | events_tac ].


Lemma callsBetween_unique w w' evs1 evs2 :
  callsBetween w w' evs1 → callsBetween w w' evs2 → evs1 = evs2.
Proof.
  unfold callsBetween. intros H1 H2. rewrite H1 in H2.
  by apply app_inv_tail in H2.
Qed.

Lemma callsBetween_from_start w w' :
  trace w = [] → callsBetween w w' (trace w').
Proof. unfold callsBetween. intros ->. by rewrite app_nil_r. Qed.

(** *** The steps before the [try] block *)

Section Resolution.
Context (h : Host).

Lemma resolved_trans w1 w2 w3 : resolved w1 w2 → resolved w2 w3 → resolved w1 w3.
Proof.
  intros (evs1 & H1 & F1 & E1 & V1 & C1) (evs2 & H2 & F2 & E2 & V2 & C2).
  exists (evs2 ++ evs1). repeat split; [|by apply Forall_app|congruence..].
  by eapply callsBetween_trans.
Qed.

Lemma resolveNames_resolved patch w :
  wp (resolveNames patch) (λ r w', resolved w w' ∧ leavesWithFalse r) w.
Proof.
  wp_run; (split; [|done]);
    (eexists; split; [calls_tac | by repeat split; events_tac]).
Qed.

Lemma chooseTarget_resolved patch search display w :
  wp (chooseTarget h patch search display)
     (λ r w', resolved w w' ∧ leavesWithFalse r) w.
Proof.
  wp_run; (split; [|done]);
    (eexists; split; [calls_tac | by repeat split; events_tac]).
Qed.

(** [applySinglePatch] is the steps before the [try] block, which leave
    with [false] or with a thrown error or go on, and then the block. *)
Lemma applySinglePatch_phases {R} patch (Q : Res R bool → World → Prop) w :
  (∀ w1, resolved w w1 →
     Q (Normal false) w1 ∧ (∀ e, Q (Thrown e) w1) ∧
     ∀ target display,
       wp (applyToTarget h patch target display)
          (λ r w2, match r with
                   | Normal b | Returned b => Q (Normal b) w2
                   | Thrown e => Q (Thrown e) w2
                   end) w1) →
  wp (applySinglePatch h patch) Q w.
Proof.
  intros HQ. unfold applySinglePatch.
  apply wp_callFn, wp_bind.
  eapply wp_mono; [apply resolveNames_resolved|].
  intros r w1 [Hw1 Hr]. cbv beta.
  destruct r as [[search display]|b|e]; simpl in Hr; subst.
  - apply wp_bind.
    eapply wp_mono; [apply chooseTarget_resolved|].
    intros r' w2 [Hw2 Hr']. cbv beta.
    assert (resolved w w2) as Hw by by eapply resolved_trans.
    destruct (HQ w2 Hw) as (Hfalse & Hthrow & Happly).
    destruct r' as [target|b|e]; simpl in Hr'; subst;
      [apply Happly|done|apply Hthrow].
  - apply (HQ w1 Hw1).
  - apply (HQ w1 Hw1).
Qed.

End Resolution.

(** *** Events of the steps before the [try] block *)

Lemma resolution_not_engine e : isResolutionEvent e → isEngineCall e = false.
Proof. by destruct e. Qed.

Lemma resolution_not_change e : isResolutionEvent e → isFileChange e = false.
Proof. by destruct e. Qed.

Lemma not_engine_not_in evs source patch fuzzFactor result :
  Forall (λ e, isEngineCall e = false) evs →
  ¬ In (ApplyPatch source patch fuzzFactor result) evs.
Proof.
  intros HF Hin. rewrite Forall_forall in HF.
  apply list_elem_of_In, HF in Hin. done.
Qed.

(** Splits [In e (e1 :: ... :: en :: evs)] into its cases and drops those in
    which the two events differ by their constructors. *)
Ltac in_cases H :=
  simpl in H;
  repeat (destruct H as [H|H]; [try discriminate H|]).

Lemma resolution_not_write e : isResolutionEvent e → isWrite e = false.
Proof. by destruct e. Qed.

Lemma resolution_not_delete e : isResolutionEvent e → isDelete e = false.
Proof. by destruct e. Qed.

(** Finds [e] in [e1 :: ... :: en :: evs]. *)
Ltac in_head := simpl; repeat first [ left; reflexivity | right ].


(** *** What every run calls *)

Lemma onlyCalls_refl P w : onlyCalls P w w.
Proof. exists []. split; [done|constructor]. Qed.

Lemma onlyCalls_proj P w0 w f v c :
  onlyCalls P w0 w →
  onlyCalls P w0 {| fs := f; trace := trace w; view := v; currentRawDiffText := c |}.
Proof. done. Qed.

Lemma onlyCalls_push P w0 t e f v c :
  P e →
  onlyCalls P w0 {| fs := f; trace := t; view := v; currentRawDiffText := c |} →
  onlyCalls P w0 {| fs := f; trace := e :: t; view := v; currentRawDiffText := c |}.
Proof.
  intros He (evs & Hc & HF). exists (e :: evs). split; [|by constructor].
  by apply callsBetween_push.
Qed.

Lemma onlyCalls_resolved P w0 w w1 :
  (∀ e, isResolutionEvent e → P e) →
  onlyCalls P w0 w → resolved w w1 → onlyCalls P w0 w1.
Proof.
  intros HP (evs & Hc & HF) (evs1 & Hc1 & HF1 & _).
  exists (evs1 ++ evs). split; [by eapply callsBetween_trans|].
  apply Forall_app. split; [|done]. eapply Forall_impl; eauto.
Qed.

Ltac only_tac side :=
  repeat first
    [ eassumption
    | apply onlyCalls_proj
    | apply onlyCalls_push; [side|]
    | apply onlyCalls_refl ].

Ltac wp_use lem :=
  eapply wp_mono; [by eapply lem|]; cbv beta.

Section EngineCalls.
Context (h : Host) (P : Event → Prop) (w0 : World).
Hypothesis P_other : ∀ e, isEngineCall e = false → P e.
Hypothesis P_engine :
  ∀ source patch result, P (ApplyPatch (normalizeLineEndings source) patch 2 result).

Local Ltac side := first [ apply P_engine | by apply P_other ].

Lemma P_resolution e : isResolutionEvent e → P e.
Proof. intros He. apply P_other. by destruct e. Qed.

Lemma applyToTarget_only patch target display w :
  onlyCalls P w0 w →
  wp (applyToTarget h patch target display) (λ _ w', onlyCalls P w0 w') w.
Proof. intros Hw. wp_run; only_tac side. Qed.

Lemma applySinglePatch_only {R} patch w :
  onlyCalls P w0 w →
  wp (applySinglePatch (R:=R) h patch) (λ _ w', onlyCalls P w0 w') w.
Proof.
  intros Hw. apply applySinglePatch_phases. intros w1 Hw1.
  assert (onlyCalls P w0 w1) as Hw01
    by (eapply onlyCalls_resolved; eauto using P_resolution).
  repeat split; [done..|]. intros target display.
  wp_use applyToTarget_only. by intros [] ?.
Qed.

Local Ltac go := wp_run; try solve [only_tac side].
Local Ltac use lem :=
  eapply wp_mono; [eapply lem; solve [only_tac side]|]; cbv beta;
  let r := fresh "r" in let w := fresh "w" in let H := fresh "Hw" in
  intros r w H; destruct r; go.

Lemma applyOnePatch_only {R} patch c w :
  onlyCalls P w0 w →
  wp (applyOnePatch (R:=R) h patch c) (λ _ w', onlyCalls P w0 w') w.
Proof.
  intros Hw. unfold applyOnePatch. go.
  use (applySinglePatch_only (R:=R)).
Qed.

Lemma applyPatches_only {R} patches c w :
  onlyCalls P w0 w →
  wp (applyPatches (R:=R) h patches c) (λ _ w', onlyCalls P w0 w') w.
Proof.
  revert c w. induction patches as [|patch rest IH]; intros c w Hw; simpl; go.
  use (applyOnePatch_only (R:=R)). by apply IH.
Qed.

Lemma applyAllPatchesToFiles_only {R} rawDiffText w :
  onlyCalls P w0 w →
  wp (applyAllPatchesToFiles (R:=R) h rawDiffText) (λ _ w', onlyCalls P w0 w') w.
Proof.
  intros Hw. unfold applyAllPatchesToFiles, parseForApplying, reportSummary. go.
  all: use (applyPatches_only (R:=unit)).
Qed.

Lemma showDiffForPatch_only {R} patch n w :
  onlyCalls P w0 w →
  wp (showDiffForPatch (R:=R) h patch n) (λ _ w', onlyCalls P w0 w') w.
Proof.
  intros Hw. unfold showDiffForPatch.
  destruct (Diff.hunks patch); [go|].
  destruct (reconstruct _) as [originalContent newContent]. go.
Qed.

Lemma showDiffs_only {R} patches n w :
  onlyCalls P w0 w →
  wp (showDiffs (R:=R) h patches n) (λ _ w', onlyCalls P w0 w') w.
Proof.
  revert n w. induction patches as [|patch rest IH]; intros n w Hw; simpl; go.
  use (showDiffForPatch_only (R:=R)). by apply IH.
Qed.

Lemma processAndShowAllDiffs_only {R} rawDiffText w :
  onlyCalls P w0 w →
  wp (processAndShowAllDiffs (R:=R) h rawDiffText) (λ _ w', onlyCalls P w0 w') w.
Proof.
  intros Hw. unfold processAndShowAllDiffs. go.
  all: use (showDiffs_only (R:=unit)).
Qed.

Lemma onDidReceiveMessage_only {R} data w :
  onlyCalls P w0 w →
  wp (onDidReceiveMessage (R:=R) h data) (λ _ w', onlyCalls P w0 w') w.
Proof.
  intros Hw. unfold onDidReceiveMessage. go.
  all: first [ use (processAndShowAllDiffs_only (R:=unit))
             | use (applyAllPatchesToFiles_only (R:=unit)) ].
Qed.

End EngineCalls.

(** ** The fuzz factor *)

Lemma fuzzIsTwo_other e : isEngineCall e = false → fuzzIsTwo e.
Proof. by destruct e. Qed.

(** C9. Every call of the patch engine made while a message of the webview
    is handled, while all patches of a text are applied, or while one patch
    is applied, has the fuzz factor 2; a message carries no fuzz factor. *)
Theorem C9_fuzz_factor_is_always_two (h : Host) (w : World) :
  (∀ data : WebviewMessage,
     ∃ evs, callsBetween w (onDidReceiveMessage (R:=unit) h data w).2 evs ∧
            Forall fuzzIsTwo evs) ∧
  (∀ rawDiffText,
     ∃ evs, callsBetween w (applyAllPatchesToFiles (R:=unit) h rawDiffText w).2 evs ∧
            Forall fuzzIsTwo evs) ∧
  (∀ patch,
     ∃ evs, callsBetween w (applySinglePatch (R:=unit) h patch w).2 evs ∧
            Forall fuzzIsTwo evs).
Proof.
  split; [|split]; intros x.
  - apply (onDidReceiveMessage_only h fuzzIsTwo w fuzzIsTwo_other); [done|].
    apply onlyCalls_refl.
  - apply (applyAllPatchesToFiles_only h fuzzIsTwo w fuzzIsTwo_other); [done|].
    apply onlyCalls_refl.
  - apply (applySinglePatch_only h fuzzIsTwo w fuzzIsTwo_other); [done|].
    apply onlyCalls_refl.
Qed.

(** ** File-creation patches *)

Lemma creationCall_resolution patch e : isResolutionEvent e → creationCall patch e.
Proof. by destruct e. Qed.

Lemma applySinglePatch_creation (h : Host) (patch : ParsedPatchType) (w : World) :
  isNewFile patch = true →
  wp (applySinglePatch (R:=unit) h patch)
     (λ r w', ∃ evs, callsBetween w w' evs ∧ Forall (creationCall patch) evs ∧
                     (r = Normal true →
                      ∃ result, In (ApplyPatch "" patch 2 (Some result)) evs)) w.
Proof.
  intros Hnew. apply applySinglePatch_phases.
  intros w1 (evs1 & Hc1 & HF1 & Hfs & _).
  assert (Forall (creationCall patch) evs1) as HF
    by (eapply Forall_impl; eauto using creationCall_resolution).
  split; [|split].
  - exists evs1. by repeat split.
  - intros e. exists evs1. by repeat split.
  - intros target display.
    autounfold with provider. rewrite Hnew. wp_simpl. repeat wp_step.
    all: eexists; split; [calls_tac|split; [events_tac|]].
    all: try done.
    all: intros _; eexists; in_head.
Qed.

(** C6. A patch whose old path is [/dev/null] or [a/dev/null] is a
    file-creation patch: while it is applied no file is read, the engine is
    called on the empty text only (with this patch and the fuzz factor 2),
    and when the call reports success the engine has been so called. *)
Theorem C6_creation_patch_applies_to_empty_content
  (h : Host) (patch : ParsedPatchType) (w : World) (evs : list Event) :
  Diff.oldFileName patch = Some "/dev/null" ∨
  Diff.oldFileName patch = Some "a/dev/null" →
  callsBetween w (applySinglePatch (R:=unit) h patch w).2 evs →
  isNewFile patch = true ∧
  Forall (creationCall patch) evs ∧
  ((applySinglePatch (R:=unit) h patch w).1 = Normal true →
   ∃ result, In (ApplyPatch "" patch 2 (Some result)) evs).
Proof.
  intros Hold Hevs.
  assert (isNewFile patch = true) as Hnew.
  { unfold isNewFile. destruct Hold as [-> | ->]; by vm_compute. }
  split; [done|].
  destruct (applySinglePatch_creation h patch w Hnew) as (evs' & Hc & HF & Hcall).
  by rewrite (callsBetween_unique _ _ _ _ Hevs Hc).
Qed.

(** C6 on a run: the new file [n.txt], created at the proposed path. *)
Lemma C6_witness :
  let run := applySinglePatch (R:=unit)
               (Scenario.host Scenario.noParse
                  (Scenario.answering [("", Scenario.lines ["x"; "y"])]))
               Scenario.creation (Scenario.world ∅) in
  Forall (creationCall Scenario.creation) (trace run.2) ∧
  ∃ result, In (ApplyPatch "" Scenario.creation 2 (Some result)) (trace run.2).
Proof.
  intros run.
  destruct (C6_creation_patch_applies_to_empty_content
              (Scenario.host Scenario.noParse
                 (Scenario.answering [("", Scenario.lines ["x"; "y"])]))
              Scenario.creation (Scenario.world ∅) (trace run.2))
    as (_ & HF & Hcall).
  - left. reflexivity.
  - by apply callsBetween_from_start.
  - split; [exact HF|]. apply Hcall. vm_compute. reflexivity.
Defined.

(** ** A patch that the engine rejects *)

Lemma applySinglePatch_rejected (h : Host) (patch : ParsedPatchType) (w : World) :
  wp (applySinglePatch (R:=unit) h patch)
     (λ r w', ∃ evs, callsBetween w w' evs ∧
        ∀ source patch' fuzzFactor,
          In (ApplyPatch source patch' fuzzFactor None) evs →
          r = Normal false ∧ fs w' = fs w ∧
          Forall (λ e, isFileChange e = false) evs ∧
          ∃ target display,
            head evs = Some (ShowErrorMessage (failedToApplyMessage h target display))) w.
Proof.
  apply applySinglePatch_phases.
  intros w1 (evs1 & Hc1 & HF1 & Hfs & _).
  assert (Forall (λ e, isEngineCall e = false) evs1) as Hne
    by (eapply Forall_impl; [exact HF1|]; intros e; apply resolution_not_engine).
  assert (Forall (λ e, isFileChange e = false) evs1) as Hnc
    by (eapply Forall_impl; [exact HF1|]; intros e; apply resolution_not_change).
  assert (∀ source patch' fuzzFactor result,
            ¬ In (ApplyPatch source patch' fuzzFactor result) evs1) as Hnot
    by (intros; by apply not_engine_not_in).
  split; [|split].
  - exists evs1. split; [done|]. intros ??? Hin. by apply Hnot in Hin.
  - intros e. exists evs1. split; [done|]. intros ??? Hin. by apply Hnot in Hin.
  - intros target display. wp_run.
    all: eexists; split; [calls_tac|].
    all: intros source patch' fuzzFactor Hin; in_cases Hin.
    all: try (by apply Hnot in Hin).
    all: split; [done|split; [done|split; [events_tac|]]].
    all: by exists target, display.
Qed.

(** C1. When the engine cannot apply the patch to the content it is given
    (it answers [false]), the call that applies one patch returns [false]
    after showing the error message of lines 395-399, and leaves every file
    as it was: no file is written or deleted by the call. *)
Theorem C1_rejected_patch_leaves_file_untouched
  (h : Host) (patch : ParsedPatchType) (w : World) (evs : list Event)
  (source : string) (fuzzFactor : Z) :
  callsBetween w (applySinglePatch (R:=unit) h patch w).2 evs →
  In (ApplyPatch source patch fuzzFactor None) evs →
  (applySinglePatch (R:=unit) h patch w).1 = Normal false ∧
  fs (applySinglePatch (R:=unit) h patch w).2 = fs w ∧
  Forall (λ e, isFileChange e = false) evs ∧
  ∃ target display,
    head evs = Some (ShowErrorMessage (failedToApplyMessage h target display)).
Proof.
  intros Hevs Hin.
  destruct (applySinglePatch_rejected h patch w) as (evs' & Hc & Hrej).
  rewrite <- (callsBetween_unique _ _ _ _ Hevs Hc) in Hrej.
  by eapply Hrej.
Qed.

(** C1 on a run: the engine rejects the change of [f.txt], which keeps its
    two lines. *)
Lemma C1_witness :
  let h := Scenario.host Scenario.noParse Scenario.rejecting in
  let w := Scenario.world {[ "/ws/f.txt" := File (Scenario.lines ["x"; "y"]) ]} in
  let run := applySinglePatch (R:=unit) h Scenario.modification w in
  run.1 = Normal false ∧
  run.2.(fs) !! "/ws/f.txt" = Some (File (Scenario.lines ["x"; "y"])).
Proof.
  intros h w run.
  destruct (C1_rejected_patch_leaves_file_untouched h Scenario.modification w
              (trace run.2) (Scenario.lines ["x"; "y"]) 2)
    as (Hr & Hfs & _).
  - by apply callsBetween_from_start.
  - vm_compute. tauto.
  - split; [exact Hr|]. fold run in Hfs. rewrite Hfs. reflexivity.
Defined.

(** ** File-deletion patches *)

Lemma applySinglePatch_deletion (h : Host) (patch : ParsedPatchType) (w : World) :
  isDeletedFile patch = true →
  wp (applySinglePatch (R:=unit) h patch)
     (λ r w', ∃ evs, callsBetween w w' evs ∧
        ∀ source patch' fuzzFactor result,
          In (ApplyPatch source patch' fuzzFactor (Some result)) evs →
          ∃ target display,
            if String.eqb (JS.trim result) ""
            then
              Forall (λ e, isWrite e = false) evs ∧
              In (FsDelete target) evs ∧
              (r = Normal true →
               fs w' = delete target (fs w) ∧
               head evs = Some (ShowInformationMessage (deletedMessage h target display)))
            else
              Forall (λ e, isDelete e = false) evs ∧
              In (FsWriteFile target result) evs ∧
              (r = Normal true →
               fs w' = <[target := File result]> (fs w) ∧
               In (ShowWarningMessage (notDeletedWarning h target display)) evs)) w.
Proof.
  intros Hdel. apply applySinglePatch_phases.
  intros w1 (evs1 & Hc1 & HF1 & Hfs & _).
  assert (Forall (λ e, isEngineCall e = false) evs1) as Hne
    by (eapply Forall_impl; [exact HF1|]; intros e; apply resolution_not_engine).
  assert (Forall (λ e, isWrite e = false) evs1) as Hnw
    by (eapply Forall_impl; [exact HF1|]; intros e; apply resolution_not_write).
  assert (Forall (λ e, isDelete e = false) evs1) as Hnd
    by (eapply Forall_impl; [exact HF1|]; intros e; apply resolution_not_delete).
  assert (∀ source patch' fuzzFactor result,
            ¬ In (ApplyPatch source patch' fuzzFactor result) evs1) as Hnot
    by (intros; by apply not_engine_not_in).
  split; [|split].
  - exists evs1. split; [done|]. intros ???? Hin. by apply Hnot in Hin.
  - intros e. exists evs1. split; [done|]. intros ???? Hin. by apply Hnot in Hin.
  - intros target display.
    autounfold with provider. rewrite Hdel. wp_simpl. repeat wp_step.
    all: eexists; split; [calls_tac|].
    all: intros source patch' fuzzFactor result Hin; in_cases Hin.
    all: try (by apply Hnot in Hin).
    all: injection Hin as <- <- <- <-.
    all: exists target, display.
    all: match goal with H : String.eqb _ _ = _ |- _ => rewrite H end.
    all: split; [events_tac|split; [in_head|]].
    all: intros Hr; try discriminate Hr.
    all: rewrite Hfs; split; [reflexivity|].
    all: first [reflexivity|in_head].
Qed.

(** C2, as the code has it. When a file-deletion patch (new path
    [/dev/null] or [b/dev/null]) is applied and the engine returns a text:
    if the text is empty or holds white space only, nothing is written, the
    file is deleted and, when the call returns [true], the deletion is the
    message shown last; if the text holds another character, nothing is
    deleted, the text is written to the file and, when the call returns
    [true], the warning of line 410 has been shown. *)
Theorem C2_deletion_patch_outcome
  (h : Host) (patch : ParsedPatchType) (w : World) (evs : list Event)
  (source : string) (fuzzFactor : Z) (result : string) :
  Diff.newFileName patch = Some "/dev/null" ∨
  Diff.newFileName patch = Some "b/dev/null" →
  callsBetween w (applySinglePatch (R:=unit) h patch w).2 evs →
  In (ApplyPatch source patch fuzzFactor (Some result)) evs →
  ∃ target display,
    (JS.trim result = "" →
     Forall (λ e, isWrite e = false) evs ∧
     In (FsDelete target) evs ∧
     ((applySinglePatch (R:=unit) h patch w).1 = Normal true →
      fs (applySinglePatch (R:=unit) h patch w).2 = delete target (fs w) ∧
      head evs = Some (ShowInformationMessage (deletedMessage h target display)))) ∧
    (JS.trim result ≠ "" →
     Forall (λ e, isDelete e = false) evs ∧
     In (FsWriteFile target result) evs ∧
     ((applySinglePatch (R:=unit) h patch w).1 = Normal true →
      fs (applySinglePatch (R:=unit) h patch w).2 = <[target := File result]> (fs w) ∧
      In (ShowWarningMessage (notDeletedWarning h target display)) evs)).
Proof.
  intros Hnew Hevs Hin.
  assert (isDeletedFile patch = true) as Hdel.
  { unfold isDeletedFile. destruct Hnew as [-> | ->]; by vm_compute. }
  destruct (applySinglePatch_deletion h patch w Hdel) as (evs' & Hc & Hspec).
  rewrite <- (callsBetween_unique _ _ _ _ Hevs Hc) in Hspec.
  destruct (Hspec _ _ _ _ Hin) as (target & display & Hcase).
  exists target, display.
  destruct (String.eqb_spec (JS.trim result) "") as [Hblank|Hblank]; by split.
Qed.

(** C2 on a run: the engine leaves the line [b], which is written to
    [f.txt] with the warning. *)
Lemma C2_witness :
  let h := Scenario.host Scenario.noParse
             (Scenario.answering [(Scenario.lines ["a"; ""], Scenario.lines ["b"])]) in
  let w := Scenario.world {[ "/ws/f.txt" := File (Scenario.lines ["a"; ""]) ]} in
  let run := applySinglePatch (R:=unit) h Scenario.deletion w in
  ∃ target display,
    In (FsWriteFile target (Scenario.lines ["b"])) (trace run.2) ∧
    fs run.2 = <[target := File (Scenario.lines ["b"])]> (fs w) ∧
    In (ShowWarningMessage (notDeletedWarning h target display)) (trace run.2).
Proof.
  intros h w run.
  destruct (C2_deletion_patch_outcome h Scenario.deletion w (trace run.2)
              (Scenario.lines ["a"; ""]) 2 (Scenario.lines ["b"]))
    as (target & display & _ & Hwritten).
  - left. reflexivity.
  - by apply callsBetween_from_start.
  - vm_compute. tauto.
  - exists target, display.
    destruct Hwritten as (_ & Hwrite & Hfs); [by vm_compute|].
    destruct Hfs as [Hfs Hwarn]; [by vm_compute|].
    exact (conj Hwrite (conj Hfs Hwarn)).
Defined.

(** C2, as stated, fails: the engine returns the text of one empty line,
    which is not empty, and the file is deleted; nothing is written and no
    warning is shown. *)
Lemma C2_counterexample :
  let result := Scenario.lines [""] in
  let h := Scenario.host Scenario.noParse
             (Scenario.answering [(Scenario.lines ["a"; ""], result)]) in
  let w := Scenario.world {[ "/ws/f.txt" := File (Scenario.lines ["a"; ""]) ]} in
  let run := applySinglePatch (R:=unit) h Scenario.deletion w in
  isDeletedFile Scenario.deletion = true ∧
  In (ApplyPatch (Scenario.lines ["a"; ""]) Scenario.deletion 2 (Some result))
     (trace run.2) ∧
  result ≠ "" ∧
  run.1 = Normal true ∧
  fs w !! "/ws/f.txt" = Some (File (Scenario.lines ["a"; ""])) ∧
  fs run.2 !! "/ws/f.txt" = None ∧
  In (FsDelete "/ws/f.txt") (trace run.2) ∧
  Forall (λ e, isWrite e = false) (trace run.2) ∧
  Forall (λ e, match e with ShowWarningMessage _ => False | _ => True end)
    (trace run.2).
Proof.
  vm_compute. repeat split; try done; try tauto.
  all: repeat constructor.
Qed.

(** ** A session over a diff text *)

Section Session.
Context (h : Host).

(** A call never ends in an early [return] for its caller. *)
Lemma callFn_not_returned {R R'} (body : M R R) (w : World) (r : R') :
  (callFn body w).1 ≠ Returned r.
Proof. unfold callFn. by destruct (body w) as [[?|?|?] ?]. Qed.

Lemma countOutcome_cons o o' outcomes :
  countOutcome o (o' :: outcomes) = countOutcome o [o'] + countOutcome o outcomes.
Proof. unfold countOutcome. simpl. by destruct (bool_decide (o' = o)). Qed.

Lemma countOutcome_one o o' :
  countOutcome o [o'] = if bool_decide (o' = o) then 1 else 0.
Proof. unfold countOutcome. simpl. by destruct (bool_decide (o' = o)). Qed.

Lemma countOutcome_total outcomes :
  countOutcome Applied outcomes + countOutcome SkippedOrCancelled outcomes +
  countOutcome Failed outcomes = length outcomes.
Proof.
  induction outcomes as [|o outcomes IH]; [done|].
  rewrite (countOutcome_cons Applied), (countOutcome_cons SkippedOrCancelled),
    (countOutcome_cons Failed).
  rewrite !countOutcome_one. cbn [length].
  destruct o; repeat case_bool_decide; try done; lia.
Qed.

Lemma turns_length patches w : length (turns h patches w).1 = length patches.
Proof.
  revert w. induction patches as [|patch rest IH]; intros w; [done|].
  cbn [turns]. destruct (turn h patch w) as [o w1]. specialize (IH w1).
  destruct (turns h rest w1) as [os w2]. simpl in *. by rewrite IH.
Qed.

Local Ltac counts :=
  cbn [fst snd]; rewrite !countOutcome_one; repeat case_bool_decide; try done;
  unfold bind, showInformationMessage, showErrorMessage, emit, ret, afterCall,
    skippedMessage, criticalErrorMessage;
  cbn [fst snd]; do 3 f_equal; lia.

(** One turn of the loop is one patch of the session, and its outcome is
    the counter that goes up. *)
Lemma applyOnePatch_turn patch c w :
  applyOnePatch (R:=unit) h patch c w =
  (Normal {| appliedCount := appliedCount c + countOutcome Applied [(turn h patch w).1];
             skippedCount :=
               skippedCount c + countOutcome SkippedOrCancelled [(turn h patch w).1];
             errorCount := errorCount c + countOutcome Failed [(turn h patch w).1] |},
   (turn h patch w).2).
Proof.
  unfold applyOnePatch, turn.
  destruct (Diff.hunks patch) as [|hunk hunks].
  { counts. }
  unfold tryCatch, bind, showErrorMessage, emit, ret.
  pose proof (callFn_not_returned (R':=unit)
    (names <- resolveNames patch ;;
     let '(searchFileNameNormalized, displayFileName) := names in
     targetFileUri <- chooseTarget h patch searchFileNameNormalized displayFileName ;;
     applyToTarget h patch targetFileUri displayFileName) w) as Hnot.
  fold (applySinglePatch (R:=unit) h patch) in Hnot.
  destruct (applySinglePatch h patch w) as [[[]|r|e] w1];
    cbn beta iota; [counts|counts|by destruct (Hnot r)|counts].
Qed.

Lemma applyPatches_turns patches c w :
  applyPatches (R:=unit) h patches c w =
  (Normal {| appliedCount := appliedCount c + countOutcome Applied (turns h patches w).1;
             skippedCount :=
               skippedCount c + countOutcome SkippedOrCancelled (turns h patches w).1;
             errorCount := errorCount c + countOutcome Failed (turns h patches w).1 |},
   (turns h patches w).2).
Proof.
  revert c w. induction patches as [|patch rest IH]; intros c w.
  - destruct c as [a s e]. cbn. by rewrite !Nat.add_0_r.
  - cbn [applyPatches turns]. unfold bind at 1. rewrite applyOnePatch_turn.
    destruct (turn h patch w) as [o w1]. cbn [fst snd]. rewrite IH.
    destruct (turns h rest w1) as [os w2].
    cbn [fst snd appliedCount skippedCount errorCount].
    rewrite (countOutcome_cons Applied o os), (countOutcome_cons SkippedOrCancelled o os),
      (countOutcome_cons Failed o os).
    do 3 f_equal; lia.
Qed.

Lemma reportSummary_call c w :
  reportSummary (R:=unit) c w =
  (Normal tt, afterCall (summaryCall (appliedCount c) (skippedCount c) (errorCount c)) w).
Proof.
  unfold reportSummary, summaryCall, summaryText, summaryMessage.
  by destruct (errorCount c), (appliedCount c).
Qed.

(** The run when the parser returns at least one patch. *)
Lemma applyAllPatchesToFiles_parsed {R} rawDiffText patches w :
  cleanDiffInput rawDiffText ≠ "" →
  parsePatch h (cleanDiffInput rawDiffText) = inr patches →
  patches ≠ [] →
  applyAllPatchesToFiles (R:=R) h rawDiffText w =
  callFn
    (counts <-
       applyPatches h patches
         {| appliedCount := 0; skippedCount := 0; errorCount := 0 |} ;;
     reportSummary counts)
    {| fs := fs w; trace := ParsePatch (cleanDiffInput rawDiffText) :: trace w;
       view := view w; currentRawDiffText := currentRawDiffText w |}.
Proof.
  intros Hclean Hparse Hne. unfold applyAllPatchesToFiles.
  destruct (cleanDiffInput rawDiffText) as [|a s] eqn:Htext; [done|].
  unfold parseForApplying, Diff_parsePatch, callFn, bind, tryCatch, emit, ret.
  simpl. rewrite Hparse. simpl.
  destruct patches as [|patch rest]; [done|]. reflexivity.
Qed.

(** The run when the parser throws or returns no patch. *)
Lemma applyAllPatchesToFiles_thrown {R} rawDiffText e w :
  cleanDiffInput rawDiffText ≠ "" →
  parsePatch h (cleanDiffInput rawDiffText) = inl e →
  applyAllPatchesToFiles (R:=R) h rawDiffText w =
  (Normal tt,
   {| fs := fs w;
      trace := thrownParseErrorCalls w (cleanDiffInput rawDiffText) e ++ trace w;
      view := view w; currentRawDiffText := currentRawDiffText w |}).
Proof.
  intros Hclean Hparse. unfold applyAllPatchesToFiles.
  destruct (cleanDiffInput rawDiffText) as [|a s] eqn:Htext; [done|].
  unfold parseForApplying, Diff_parsePatch, callFn, bind, tryCatch, emit, ret,
    postParseError, showErrorMessage, getWorld, thrownParseErrorCalls,
    parseErrorCalls.
  simpl. rewrite Hparse. simpl.
  by destruct (view w).
Qed.


(** The session over the parsed patches. *)
Lemma applyAllPatchesToFiles_session rawDiffText patches w :
  cleanDiffInput rawDiffText ≠ "" →
  parsePatch h (cleanDiffInput rawDiffText) = inr patches →
  patches ≠ [] →
  applyAllPatchesToFiles (R:=unit) h rawDiffText w =
  (Normal tt,
   afterSession h patches (afterCall (ParsePatch (cleanDiffInput rawDiffText)) w)).
Proof.
  intros Hclean Hparse Hne.
  rewrite (applyAllPatchesToFiles_parsed _ _ _ Hclean Hparse Hne).
  unfold callFn, bind. fold (afterCall (ParsePatch (cleanDiffInput rawDiffText)) w).
  rewrite applyPatches_turns, reportSummary_call. reflexivity.
Qed.

End Session.

(** C10. Each parsed patch has exactly one outcome: applied, skipped or
    cancelled, or failed. When the parser has returned patches, the session
    is the call of the parser, one turn for each patch in order, and the
    summary; the three numbers of the summary are the numbers of patches
    with each outcome, they add up to the number of patches, and the
    summary spells out all three. *)
Theorem C10_counters_cover_every_patch
  (h : Host) (rawDiffText : string) (patches : list ParsedPatchType) (w : World) :
  cleanDiffInput rawDiffText ≠ "" →
  parsePatch h (cleanDiffInput rawDiffText) = inr patches →
  patches ≠ [] →
  let session := turns h patches (afterCall (ParsePatch (cleanDiffInput rawDiffText)) w) in
  let applied := countOutcome Applied session.1 in
  let skipped := countOutcome SkippedOrCancelled session.1 in
  let errors := countOutcome Failed session.1 in
  length session.1 = length patches ∧
  applied + skipped + errors = length patches ∧
  applyAllPatchesToFiles (R:=unit) h rawDiffText w =
    (Normal tt, afterCall (summaryCall applied skipped errors) session.2).
Proof.
  intros Hclean Hparse Hne session applied skipped errors.
  assert (length session.1 = length patches) as Hlength by apply turns_length.
  split; [done|]. split.
  - unfold applied, skipped, errors. by rewrite countOutcome_total.
  - by apply applyAllPatchesToFiles_session.
Qed.

(** C10 on a run: of two patches both are applied, and the summary says
    so. *)
Lemma C10_witness :
  let h := Scenario.host
             (ScenarioParsers.returning [Scenario.modification; Scenario.creation])
             (Scenario.answering
                [ (Scenario.lines ["a"; "b"; "c"], Scenario.lines ["a"; "B"; "c"]);
                  ("", Scenario.lines ["x"; "y"]) ]) in
  let w := Scenario.world {[ "/ws/f.txt" := File (Scenario.lines ["a"; "b"; "c"]) ]} in
  head (trace (applyAllPatchesToFiles (R:=unit) h ScenarioParsers.twoGoodSections w).2) =
  Some (ShowInformationMessage
          "Patch application process finished. Applied: 2, Skipped/Cancelled: 0, Errors: 0.").
Proof.
  intros h w.
  destruct (C10_counters_cover_every_patch h ScenarioParsers.twoGoodSections
              [Scenario.modification; Scenario.creation] w)
    as (_ & _ & Hrun).
  - by vm_compute.
  - reflexivity.
  - discriminate.
  - rewrite Hrun. by vm_compute.
Defined.

(** ** Line endings *)

Lemma replaceCR_no_CR s : JS.contains JS.CR (JS.replaceCR s) = false.
Proof.
  induction s as [|c r IH]; [done|].
  cbn [JS.replaceCR JS.contains].
  rewrite IH, orb_false_r.
  destruct (Ascii.eqb_spec c JS.CR) as [->|Hc]; [reflexivity|].
  apply Ascii.eqb_neq. congruence.
Qed.



Lemma normalizeLineEndings_no_CR str :
  JS.contains JS.CR (normalizeLineEndings str) = false.
Proof. destruct str; [done|]. apply replaceCR_no_CR. Qed.



(** *** The calls made for one patch *)

Section CallsForAPatch.
Context (h : Host) (patch : ParsedPatchType) (w0 : World).

Local Ltac side :=
  first [ exact I
        | reflexivity
        | by repeat split; try apply normalizeLineEndings_no_CR ].
Local Ltac go := wp_run; try solve [only_tac side].

Lemma resolveNames_calls w :
  onlyCalls (isCallFor patch) w0 w →
  wp (resolveNames patch) (λ _ w', onlyCalls (isCallFor patch) w0 w') w.
Proof. intros Hw. go. Qed.

Lemma chooseTarget_calls search display w :
  onlyCalls (isCallFor patch) w0 w →
  wp (chooseTarget h patch search display)
     (λ _ w', onlyCalls (isCallFor patch) w0 w') w.
Proof. intros Hw. go. Qed.

Lemma applyToTarget_calls target display w :
  onlyCalls (isCallFor patch) w0 w →
  wp (applyToTarget h patch target display)
     (λ _ w', onlyCalls (isCallFor patch) w0 w') w.
Proof. intros Hw. go. Qed.

Lemma applySinglePatch_calls {R} w :
  onlyCalls (isCallFor patch) w0 w →
  wp (applySinglePatch (R:=R) h patch) (λ _ w', onlyCalls (isCallFor patch) w0 w') w.
Proof.
  intros Hw. unfold applySinglePatch. apply wp_callFn, wp_bind.
  eapply wp_mono; [by apply resolveNames_calls|]. cbv beta.
  intros [[search display]|b|e] w1 Hw1; [|done..].
  apply wp_bind. eapply wp_mono; [by apply chooseTarget_calls|]. cbv beta.
  intros [target|b|e] w2 Hw2; [|done..].
  eapply wp_mono; [by apply applyToTarget_calls|]. by intros [] ?.
Qed.

End CallsForAPatch.

Section CallsOfASession.
Context (h : Host).

Lemma turn_calls patch w :
  ∃ evs, callsBetween w (turn h patch w).2 evs ∧ Forall (isCallFor patch) evs.
Proof.
  unfold turn. destruct (Diff.hunks patch) as [|hunk hunks].
  { exists [skippedMessage patch]. split; [done|]. by repeat constructor. }
  pose proof (applySinglePatch_calls h patch w (R:=unit) w (onlyCalls_refl _ _))
    as (evs & Hc & HF).
  unfold wp in *.
  destruct (applySinglePatch h patch w) as [[[]|r|e] w1]; cbn [fst snd] in *.
  1-3: by exists evs.
  exists (criticalErrorMessage patch e :: evs). split.
  - by apply callsBetween_push.
  - constructor; [reflexivity|done].
Qed.

Lemma turns_calls patches w :
  ∃ evs, callsBetween w (turns h patches w).2 evs ∧
         Forall (isCallForOneOf patches) evs.
Proof.
  revert w. induction patches as [|patch rest IH]; intros w.
  { exists []. split; [done|constructor]. }
  cbn [turns]. destruct (turn_calls patch w) as (evs1 & Hc1 & HF1).
  destruct (turn h patch w) as [o w1]. cbn [snd] in Hc1.
  destruct (IH w1) as (evs2 & Hc2 & HF2).
  destruct (turns h rest w1) as [os w2]. cbn [snd] in *.
  exists (evs2 ++ evs1). split; [by eapply callsBetween_trans|].
  apply Forall_app. split.
  - eapply Forall_impl; [exact HF2|]. intros e (p & Hin & Hp).
    exists p. split; [by right|done].
  - eapply Forall_impl; [exact HF1|]. intros e He.
    exists patch. split; [by left|done].
Qed.

(** The calls of a session over parsed patches: the parser once, with the
    cleaned text; then the calls for the patches; then the summary. *)
Lemma applyAllPatchesToFiles_calls rawDiffText patches w :
  cleanDiffInput rawDiffText ≠ "" →
  parsePatch h (cleanDiffInput rawDiffText) = inr patches →
  patches ≠ [] →
  ∃ evs applied skipped errors,
    trace (applyAllPatchesToFiles (R:=unit) h rawDiffText w).2 =
      summaryCall applied skipped errors
      :: evs ++ ParsePatch (cleanDiffInput rawDiffText) :: trace w ∧
    Forall (isCallForOneOf patches) evs.
Proof.
  intros Hclean Hparse Hne.
  rewrite (applyAllPatchesToFiles_session h _ _ _ Hclean Hparse Hne).
  destruct (turns_calls patches
              (afterCall (ParsePatch (cleanDiffInput rawDiffText)) w))
    as (evs & Hc & HF).
  exists evs. eexists _, _, _. split; [|exact HF].
  unfold afterSession. cbn [snd trace afterCall]. by rewrite Hc.
Qed.

End CallsOfASession.

Lemma pushLine_classify acc line :
  pushLine acc line =
  (acc.1 ++ option_list (originalPayload (classify line)),
   acc.2 ++ option_list (modifiedPayload (classify line))).
Proof.
  destruct acc as [o n], line as [|c text].
  - unfold pushLine. simpl. by rewrite !app_nil_r.
  - destruct c as [[] [] [] [] [] [] [] []];
      unfold pushLine; cbn; by rewrite ?app_nil_r.
Qed.

Lemma fold_pushLine lines acc :
  fold_left pushLine lines acc =
  (acc.1 ++ omap originalPayload (classify <$> lines),
   acc.2 ++ omap modifiedPayload (classify <$> lines)).
Proof.
  revert acc. induction lines as [|line rest IH]; intros [o n].
  - simpl. by rewrite !app_nil_r.
  - cbn [fold_left]. rewrite IH, pushLine_classify. cbn [fst snd fmap list_fmap omap list_omap].
    rewrite <- !app_assoc. f_equal.
    + f_equal. by destruct (originalPayload (classify line)).
    + f_equal. by destruct (modifiedPayload (classify line)).
Qed.

Lemma fold_hunks hunks acc :
  fold_left (λ acc hunk, fold_left pushLine (Diff.lines hunk) acc) hunks acc =
  (acc.1 ++ omap originalPayload (classify <$> concat (Diff.lines <$> hunks)),
   acc.2 ++ omap modifiedPayload (classify <$> concat (Diff.lines <$> hunks))).
Proof.
  revert acc. induction hunks as [|hunk rest IH]; intros [o n].
  - simpl. by rewrite !app_nil_r.
  - cbn [fold_left]. rewrite IH, fold_pushLine. cbn [fst snd].
    rewrite fmap_cons. cbn [concat]. rewrite fmap_app, !omap_app, !app_assoc.
    reflexivity.
Qed.

Lemma collectLines_spec hunks :
  collectLines hunks =
  (omap originalPayload (classify <$> concat (Diff.lines <$> hunks)),
   omap modifiedPayload (classify <$> concat (Diff.lines <$> hunks))).
Proof. unfold collectLines. by rewrite fold_hunks. Qed.





(** ** The preview *)

Section Preview.
Context (h : Host) (w0 : World).

Lemma previewed_proj w v c :
  previewed w0 w →
  previewed w0 {| fs := fs w; trace := trace w; view := v; currentRawDiffText := c |}.
Proof. done. Qed.

Lemma previewed_push f t e v c :
  isPreviewEvent e →
  previewed w0 {| fs := f; trace := t; view := v; currentRawDiffText := c |} →
  previewed w0 {| fs := f; trace := e :: t; view := v; currentRawDiffText := c |}.
Proof. intros He [Hc Hfs]. split; [by apply onlyCalls_push|done]. Qed.

Local Ltac keep :=
  repeat first
    [ eassumption
    | apply previewed_proj
    | apply previewed_push; [exact I|] ].
Local Ltac go := wp_run; try solve [keep].
Local Ltac use lem :=
  eapply wp_mono; [eapply lem; solve [keep]|]; cbv beta;
  let r := fresh "r" in let w := fresh "w" in let H := fresh "Hw" in
  intros r w H; destruct r; go.




End Preview.

(** *** Texts without carriage return *)








(** ** Code fences *)

Lemma string_app_cons (x : ascii) (a b : string) :
  String x a +:+ b = String x (a +:+ b).
Proof. reflexivity. Qed.

Lemma string_app_nil (b : string) : "" +:+ b = b.
Proof. reflexivity. Qed.

Lemma string_app_assoc (a b c : string) : (a +:+ b) +:+ c = a +:+ (b +:+ c).
Proof.
  induction a as [|x a IH]; [done|]. by rewrite !string_app_cons, IH.
Qed.

Lemma string_app_length (a b : string) :
  String.length (a +:+ b) = String.length a + String.length b.
Proof.
  induction a as [|x a IH]; [done|]. rewrite string_app_cons. cbn. by rewrite IH.
Qed.

Lemma substringFrom_app (a b : string) :
  JS.substringFrom (String.length a) (a +:+ b) = b.
Proof.
  induction a as [|x a IH]; [by destruct b|]. by rewrite string_app_cons.
Qed.

Lemma substringTo_app (a b : string) :
  JS.substringTo (String.length a) (a +:+ b) = a.
Proof.
  induction a as [|x a IH]; [by destruct b|].
  rewrite string_app_cons. cbn. by rewrite IH.
Qed.

Lemma startsWith_app (a b : string) : JS.startsWith (a +:+ b) a = true.
Proof.
  unfold JS.startsWith. induction a as [|x a IH]; [by destruct b|].
  rewrite string_app_cons. cbn [String.prefix].
  by destruct (ascii_dec x x).
Qed.

Lemma endsWith_app (a b : string) : JS.endsWith (a +:+ b) b = true.
Proof.
  unfold JS.endsWith. rewrite string_app_length.
  rewrite decide_True by lia.
  replace (String.length a + String.length b - String.length b)
    with (String.length a) by lia.
  rewrite substringFrom_app. by apply bool_decide_eq_true.
Qed.

Lemma trimStart_app_ws (ws s : string) :
  allWhiteSpace ws = true → JS.trimStart (ws +:+ s) = JS.trimStart s.
Proof.
  induction ws as [|c ws IH]; [done|]. rewrite string_app_cons. cbn [JS.trimEnd JS.trimStart allWhiteSpace].
  intros [Hc Hws]%andb_true_iff. rewrite Hc. by apply IH.
Qed.

Lemma trimEnd_ws (ws : string) : allWhiteSpace ws = true → JS.trimEnd ws = "".
Proof.
  induction ws as [|c ws IH]; [done|]. cbn [JS.trimEnd JS.trimStart allWhiteSpace].
  intros [Hc Hws]%andb_true_iff. rewrite IH by done. by rewrite Hc.
Qed.

Lemma trimEnd_app_ws (s ws : string) :
  allWhiteSpace ws = true → JS.trimEnd (s +:+ ws) = JS.trimEnd s.
Proof.
  intros Hws. induction s as [|c s IH]; [by apply trimEnd_ws|].
  rewrite string_app_cons. cbn [JS.trimEnd JS.trimStart allWhiteSpace]. by rewrite IH.
Qed.

Lemma trimEnd_last (s : string) (c : ascii) :
  JS.isWhiteSpace c = false →
  JS.trimEnd (s +:+ String c "") = s +:+ String c "".
Proof.
  intros Hc. induction s as [|x s IH].
  - rewrite string_app_nil. cbn [JS.trimEnd JS.trimStart allWhiteSpace]. by rewrite Hc.
  - rewrite string_app_cons. cbn [JS.trimEnd JS.trimStart allWhiteSpace]. rewrite IH. by destruct s.
Qed.

Lemma trimEnd_idem (s : string) : JS.trimEnd (JS.trimEnd s) = JS.trimEnd s.
Proof.
  induction s as [|c s IH]; [done|]. cbn [JS.trimEnd JS.trimStart allWhiteSpace].
  destruct (JS.trimEnd s) as [|x r] eqn:Hs.
  - destruct (JS.isWhiteSpace c) eqn:Hc; [done|]. cbn [JS.trimEnd JS.trimStart allWhiteSpace]. by rewrite Hc.
  - cbn [JS.trimEnd] in *. by rewrite IH.
Qed.

Lemma trimEnd_head (c : ascii) (s : string) :
  JS.isWhiteSpace c = false → ∃ r, JS.trimEnd (String c s) = String c r.
Proof.
  intros Hc. cbn [JS.trimEnd JS.trimStart allWhiteSpace]. destruct (JS.trimEnd s); [rewrite Hc|]; eauto.
Qed.

Lemma trimStart_head (s : string) :
  JS.trimStart s = "" ∨
  ∃ c r, JS.trimStart s = String c r ∧ JS.isWhiteSpace c = false.
Proof.
  induction s as [|c s IH]; [by left|]. cbn [JS.trimEnd JS.trimStart allWhiteSpace].
  destruct (JS.isWhiteSpace c) eqn:Hc; [done|]. right. eauto.
Qed.

Lemma trim_idem (s : string) : JS.trim (JS.trim s) = JS.trim s.
Proof.
  unfold JS.trim.
  destruct (trimStart_head s) as [->|(c & r & -> & Hc)]; [done|].
  destruct (trimEnd_head c r Hc) as [r' Hr']. rewrite Hr'.
  cbn [JS.trimStart]. rewrite Hc, <- Hr'. apply trimEnd_idem.
Qed.

Lemma trim_fenced (ws1 ws2 inner : string) (c : ascii) (marker : string) :
  JS.isWhiteSpace c = false →
  allWhiteSpace ws1 = true → allWhiteSpace ws2 = true →
  JS.trim (ws1 +:+ String c marker +:+ inner +:+ fenceClose +:+ ws2) =
  String c marker +:+ inner +:+ fenceClose.
Proof.
  intros Hc H1 H2. unfold JS.trim. rewrite trimStart_app_ws by done.
  rewrite string_app_cons. cbn [JS.trimStart]. rewrite Hc.
  rewrite <- string_app_cons, <- !string_app_assoc.
  rewrite trimEnd_app_ws by done.
  change fenceClose with ("``" +:+ String "`" "").
  rewrite <- string_app_assoc. by apply trimEnd_last.
Qed.

Lemma startsWith_split (s p : string) :
  JS.startsWith s p = true → s = p +:+ JS.substringFrom (String.length p) s.
Proof.
  unfold JS.startsWith. revert s. induction p as [|x p IH]; intros s Hs.
  { by destruct s. }
  destruct s as [|y s]; [done|]. cbn [String.prefix] in Hs.
  destruct (ascii_dec x y) as [->|]; [|done].
  rewrite string_app_cons. cbn [String.length JS.substringFrom]. f_equal. by apply IH.
Qed.

Lemma substring_split (n : nat) (s : string) :
  s = JS.substringTo n s +:+ JS.substringFrom n s.
Proof.
  revert s. induction n as [|n IH]; intros s; [by destruct s|].
  destruct s as [|x s]; [done|].
  cbn [JS.substringTo JS.substringFrom]. rewrite string_app_cons. f_equal. apply IH.
Qed.

Lemma endsWith_split (s p : string) :
  JS.endsWith s p = true →
  s = JS.substringTo (String.length s - String.length p) s +:+ p.
Proof.
  unfold JS.endsWith. case_decide; [|done]. intros Hs%bool_decide_eq_true.
  generalize dependent (String.length s - String.length p).
  intros n <-. apply substring_split.
Qed.

(** The text with its closing marker cut off, when it has one. *)
Lemma closeFence_closed (body : string) :
  (if JS.endsWith (body +:+ fenceClose) fenceClose
   then JS.substringTo (String.length (body +:+ fenceClose) - String.length fenceClose)
          (body +:+ fenceClose)
   else body +:+ fenceClose) = body.
Proof.
  rewrite endsWith_app, string_app_length, Nat.add_sub. apply substringTo_app.
Qed.

(** C7, as the code has it, for every text. Let the text be trimmed. If it
    begins with [```diff], this marker is cut off; if what is then left
    ends with [```], that marker is cut off; the rest is trimmed again.
    So a text between [```diff] and [```] yields what is between them,
    trimmed; a text that begins with [```diff] and has no closing marker
    loses the opening marker; a text that does not begin with [```diff]
    and ends with [```] loses the closing marker alone; any other text
    yields itself, trimmed. These four cases are all there are. *)
Theorem C7_fences_are_stripped (rawDiffText : string) :
  let text := JS.trim rawDiffText in
  (∀ rest, text = "```diff" +:+ rest →
     (∀ inner, rest = inner +:+ "```" → cleanDiffInput rawDiffText = JS.trim inner) ∧
     (JS.endsWith rest "```" = false → cleanDiffInput rawDiffText = JS.trim rest)) ∧
  (JS.startsWith text "```diff" = false →
     (∀ body, text = body +:+ "```" → cleanDiffInput rawDiffText = JS.trim body) ∧
     (JS.endsWith text "```" = false → cleanDiffInput rawDiffText = text)) ∧
  (JS.startsWith text "```diff" = true → ∃ rest, text = "```diff" +:+ rest) ∧
  (∀ s, JS.endsWith s "```" = true → ∃ body, s = body +:+ "```").
Proof.
  intros text. split; [|split; [|split]].
  - intros rest Htext.
    assert (cleanDiffInput rawDiffText =
            JS.trim (if JS.endsWith rest fenceClose
                     then JS.substringTo (String.length rest - String.length fenceClose) rest
                     else rest)) as Hclean.
    { unfold cleanDiffInput. fold text. rewrite Htext.
      change "```diff" with fenceOpen.
      by rewrite startsWith_app, substringFrom_app. }
    split.
    + intros inner ->. change "```" with fenceClose in Hclean.
      by rewrite closeFence_closed in Hclean.
    + intros Hopenonly. change "```" with fenceClose in Hopenonly.
      by rewrite Hopenonly in Hclean.
  - intros Hopen.
    assert (cleanDiffInput rawDiffText =
            JS.trim (if JS.endsWith text fenceClose
                     then JS.substringTo (String.length text - String.length fenceClose) text
                     else text)) as Hclean.
    { unfold cleanDiffInput. fold text. change fenceOpen with "```diff". by rewrite Hopen. }
    split.
    + intros body Hbody. rewrite Hbody in Hclean. change "```" with fenceClose in Hclean.
      by rewrite closeFence_closed in Hclean.
    + intros Hclose. change "```" with fenceClose in Hclose. rewrite Hclose in Hclean.
      rewrite Hclean. apply trim_idem.
  - intros Hopen. eexists. by apply startsWith_split.
  - intros s Hclose. eexists. by apply endsWith_split.
Qed.

(** C7 on a text between the two markers, with white space around. *)
Lemma C7_witness :
  let inner := Scenario.lines [""; "--- a/f.txt"; "+++ b/f.txt"] in
  cleanDiffInput
    (Scenario.lines ["  ```diff"; "--- a/f.txt"; "+++ b/f.txt"; "```"; ""]) =
  JS.trim inner.
Proof.
  intros inner.
  destruct (C7_fences_are_stripped
              (Scenario.lines ["  ```diff"; "--- a/f.txt"; "+++ b/f.txt"; "```"; ""]))
    as (Hopened & _).
  destruct (Hopened (inner +:+ "```")) as (Hclosed & _).
  - by vm_compute.
  - by apply Hclosed.
Defined.

(** C7, as stated, fails for a fence without the [diff] tag: the closing
    fence is cut off, the opening one stays in the text that is parsed. *)
Lemma C7_counterexample :
  let inner := "--- a/f.txt" +:+ JS.nl +:+ "+++ b/f.txt" in
  cleanDiffInput ("```" +:+ JS.nl +:+ inner +:+ JS.nl +:+ "```") =
    "```" +:+ JS.nl +:+ inner ∧
  cleanDiffInput ("```" +:+ JS.nl +:+ inner +:+ JS.nl +:+ "```") ≠ inner ∧
  cleanDiffInput ("```diff" +:+ JS.nl +:+ inner +:+ JS.nl +:+ "```") = inner.
Proof. by vm_compute. Qed.

(** ** More on the two text functions *)

Lemma replaceCRLF_no_CR s : JS.contains JS.CR s = false → JS.replaceCRLF s = s.
Proof.
  induction s as [|c r IH]; [done|].
  cbn [JS.contains]. intros [Hc Hr]%orb_false_iff.
  rewrite Ascii.eqb_sym in Hc.
  destruct r as [|c' r']; [done|].
  change (JS.replaceCRLF (String c (String c' r')))
    with (if Ascii.eqb c JS.CR && Ascii.eqb c' JS.LF
          then String JS.LF (JS.replaceCRLF r')
          else String c (JS.replaceCRLF (String c' r'))).
  rewrite Hc. cbn [andb]. by rewrite IH.
Qed.

Lemma replaceCR_no_CR_id s : JS.contains JS.CR s = false → JS.replaceCR s = s.
Proof.
  induction s as [|c r IH]; [done|].
  cbn [JS.contains JS.replaceCR]. intros [Hc Hr]%orb_false_iff.
  rewrite Ascii.eqb_sym in Hc. rewrite Hc. by rewrite IH.
Qed.

Lemma normalizeLineEndings_no_CR_id str :
  JS.contains JS.CR str = false → normalizeLineEndings str = str.
Proof.
  intros Hstr. destruct str as [|c r]; [done|].
  unfold normalizeLineEndings.
  rewrite replaceCRLF_no_CR by done. by apply replaceCR_no_CR_id.
Qed.

Lemma replaceCR_length s : String.length (JS.replaceCR s) = String.length s.
Proof. induction s as [|c r IH]; [done|]. cbn [JS.replaceCR String.length]. by rewrite IH. Qed.

Lemma replaceCRLF_length s :
  (∀ c, String.length (JS.replaceCRLF (String c s)) + countCRLF (String c s)
        = String.length (String c s)) ∧
  String.length (JS.replaceCRLF s) + countCRLF s = String.length s.
Proof.
  induction s as [|c' s' [IHc IH]].
  - split; [|done]. intros c. reflexivity.
  - split; [|apply IHc]. intros c. specialize (IHc c').
    change (JS.replaceCRLF (String c (String c' s')))
      with (if Ascii.eqb c JS.CR && Ascii.eqb c' JS.LF
            then String JS.LF (JS.replaceCRLF s')
            else String c (JS.replaceCRLF (String c' s'))).
    change (countCRLF (String c (String c' s')))
      with (if Ascii.eqb c JS.CR && Ascii.eqb c' JS.LF
            then S (countCRLF s')
            else countCRLF (String c' s')).
    destruct (Ascii.eqb c JS.CR && Ascii.eqb c' JS.LF);
      cbn [String.length] in *; lia.
Qed.

(** X1. [normalizeLineEndings] is idempotent: a text that went through it
    goes through it again unchanged. *)
Theorem X1_normalizeLineEndings_idempotent (str : string) :
  normalizeLineEndings (normalizeLineEndings str) = normalizeLineEndings str.
Proof. apply normalizeLineEndings_no_CR_id, normalizeLineEndings_no_CR. Qed.

(** X2. A text without carriage return goes through [normalizeLineEndings]
    unchanged. *)
Theorem X2_normalizeLineEndings_keeps_normalized (str : string) :
  JS.contains JS.CR str = false → normalizeLineEndings str = str.
Proof. apply normalizeLineEndings_no_CR_id. Qed.

(** X2 on a text of two lines. *)
Lemma X2_witness :
  normalizeLineEndings (Scenario.lines ["a"; "b"]) = Scenario.lines ["a"; "b"].
Proof.
  exact (X2_normalizeLineEndings_keeps_normalized (Scenario.lines ["a"; "b"]) eq_refl).
Defined.

(** X3. [normalizeLineEndings] shortens a text by the number of its CR LF
    pairs, one character for each, and by nothing else. *)
Theorem X3_normalizeLineEndings_length (str : string) :
  String.length (normalizeLineEndings str) + countCRLF str = String.length str.
Proof.
  destruct str as [|c r]; [done|]. unfold normalizeLineEndings.
  rewrite replaceCR_length. apply replaceCRLF_length.
Qed.

Lemma trimStart_length s : String.length (JS.trimStart s) ≤ String.length s.
Proof.
  induction s as [|c r IH]; [done|]. cbn [JS.trimStart].
  destruct (JS.isWhiteSpace c); cbn [String.length]; lia.
Qed.

Lemma trimEnd_length s : String.length (JS.trimEnd s) ≤ String.length s.
Proof.
  induction s as [|c r IH]; [done|]. cbn [JS.trimEnd].
  destruct (JS.trimEnd r); [destruct (JS.isWhiteSpace c)|];
    cbn [String.length] in *; lia.
Qed.

Lemma trim_length s : String.length (JS.trim s) ≤ String.length s.
Proof.
  unfold JS.trim. etrans; [apply trimEnd_length|apply trimStart_length].
Qed.

Lemma substringFrom_length n s :
  String.length (JS.substringFrom n s) ≤ String.length s.
Proof.
  revert s. induction n as [|n IH]; intros [|c r]; cbn [JS.substringFrom String.length];
    try lia. specialize (IH r). lia.
Qed.

Lemma substringTo_length n s :
  String.length (JS.substringTo n s) ≤ String.length s.
Proof.
  revert s. induction n as [|n IH]; intros [|c r]; cbn [JS.substringTo String.length];
    try lia. specialize (IH r). lia.
Qed.

Lemma trimStart_ws ws : allWhiteSpace ws = true → JS.trimStart ws = "".
Proof.
  induction ws as [|c ws IH]; [done|]. cbn [allWhiteSpace JS.trimStart].
  intros [Hc Hws]%andb_true_iff. rewrite Hc. by apply IH.
Qed.

Lemma trim_ws ws : allWhiteSpace ws = true → JS.trim ws = "".
Proof. intros Hws. unfold JS.trim. by rewrite trimStart_ws. Qed.

Lemma cleanDiffInput_blank ws : allWhiteSpace ws = true → cleanDiffInput ws = "".
Proof.
  intros Hws. unfold cleanDiffInput. rewrite (trim_ws ws) by done. reflexivity.
Qed.

Lemma cleanDiffInput_fenced ws1 ws2 inner :
  allWhiteSpace ws1 = true → allWhiteSpace ws2 = true →
  cleanDiffInput (ws1 +:+ "```diff" +:+ inner +:+ "```" +:+ ws2) = JS.trim inner.
Proof.
  intros H1 H2.
  assert (JS.trim (ws1 +:+ "```diff" +:+ inner +:+ "```" +:+ ws2) =
          fenceOpen +:+ inner +:+ fenceClose) as Htrim
    by (by apply (trim_fenced ws1 ws2 inner "`" "``diff")).
  unfold cleanDiffInput. rewrite Htrim.
  rewrite startsWith_app, substringFrom_app, endsWith_app.
  rewrite string_app_length, Nat.add_sub, substringTo_app. reflexivity.
Qed.

(** X4. The text that [cleanDiffInput] returns has no white space at its
    start or its end (trimming it changes nothing), and it is never longer
    than the text given. *)
Theorem X4_cleanDiffInput_is_trimmed (rawDiffText : string) :
  JS.trim (cleanDiffInput rawDiffText) = cleanDiffInput rawDiffText ∧
  String.length (cleanDiffInput rawDiffText) ≤ String.length rawDiffText.
Proof.
  split; [apply trim_idem|].
  unfold cleanDiffInput.
  etrans; [apply trim_length|].
  pose proof (trim_length rawDiffText) as Htrim.
  destruct (JS.startsWith _ _), (JS.endsWith _ _);
    repeat (first [ etrans; [apply substringTo_length|]
                  | etrans; [apply substringFrom_length|] ]); done.
Qed.

(** X5. A text of white space only, bare or between the fences [```diff]
    and [```], is cleaned to the empty text; the preview and the apply
    operation then show one information message each and do nothing else:
    the parser is not called. *)
Theorem X5_blank_text_is_not_parsed
  (h : Host) (ws1 ws2 blank rawDiffText : string) (w : World) :
  allWhiteSpace ws1 = true → allWhiteSpace ws2 = true → allWhiteSpace blank = true →
  rawDiffText = blank ∨
  rawDiffText = ws1 +:+ "```diff" +:+ blank +:+ "```" +:+ ws2 →
  cleanDiffInput rawDiffText = "" ∧
  processAndShowAllDiffs (R:=unit) h rawDiffText w =
    (Normal tt,
     {| fs := fs w;
        trace := ShowInformationMessage
                   "No diff content to process after cleaning markers." :: trace w;
        view := view w; currentRawDiffText := currentRawDiffText w |}) ∧
  applyAllPatchesToFiles (R:=unit) h rawDiffText w =
    (Normal tt,
     {| fs := fs w;
        trace := ShowInformationMessage
                   "No diff content to process for applying to file." :: trace w;
        view := view w; currentRawDiffText := currentRawDiffText w |}).
Proof.
  intros H1 H2 Hblank Hraw.
  assert (cleanDiffInput rawDiffText = "") as Hclean.
  { destruct Hraw as [-> | ->]; [by apply cleanDiffInput_blank|].
    rewrite cleanDiffInput_fenced by done. by apply trim_ws. }
  split; [done|].
  unfold processAndShowAllDiffs, applyAllPatchesToFiles. by rewrite Hclean.
Qed.

(** X5 on a fenced text that holds an empty line only. *)
Lemma X5_witness :
  cleanDiffInput (Scenario.lines ["```diff"; ""; "```"]) = "".
Proof.
  exact (proj1 (X5_blank_text_is_not_parsed
                  (Scenario.host Scenario.noParse Scenario.rejecting)
                  "" JS.nl (Scenario.lines [""; ""])
                  (Scenario.lines ["```diff"; ""; "```"])
                  (Scenario.world ∅)
                  eq_refl eq_refl eq_refl (or_intror eq_refl))).
Defined.

(** ** More on the preview *)

Lemma omap_classify_filter {A} (f : Line → option A) (ls : list string) :
  f Other = None →
  omap f (classify <$> List.filter isBodyLine ls) = omap f (classify <$> ls).
Proof.
  intros Hf. induction ls as [|l ls IH]; [done|].
  cbn [List.filter]. unfold isBodyLine at 1.
  destruct (classify l) eqn:Hl; rewrite ?fmap_cons; cbn [omap list_omap];
    rewrite ?Hl, ?Hf; by rewrite IH.
Qed.

Lemma omap_classify_withoutOtherLines {A} (f : Line → option A) hunks :
  f Other = None →
  omap f (classify <$> concat (Diff.lines <$> (withoutOtherLines <$> hunks))) =
  omap f (classify <$> concat (Diff.lines <$> hunks)).
Proof.
  intros Hf. induction hunks as [|hunk rest IH]; [done|].
  rewrite !fmap_cons. cbn [concat Diff.lines withoutOtherLines].
  rewrite !fmap_app, !omap_app, IH. f_equal. by apply omap_classify_filter.
Qed.

(** X6. Lines of a hunk that do not begin with a space, a plus or a minus,
    such as the marker [\ No newline at end of file] or an empty line, are
    on neither side of the preview: without them the two texts are the
    same. *)
Theorem X6_preview_ignores_other_lines (hunks : list Diff.Hunk) :
  reconstruct (withoutOtherLines <$> hunks) = reconstruct hunks.
Proof.
  unfold reconstruct. rewrite !collectLines_spec.
  by rewrite !omap_classify_withoutOtherLines.
Qed.

Section PreviewRuns.
Context (h : Host).

Lemma processAndShowAllDiffs_thrown rawDiffText e w :
  cleanDiffInput rawDiffText ≠ "" →
  parsePatch h (cleanDiffInput rawDiffText) = inl e →
  processAndShowAllDiffs (R:=unit) h rawDiffText w =
  (Normal tt,
   {| fs := fs w;
      trace := previewThrownCalls w (cleanDiffInput rawDiffText) e ++ trace w;
      view := view w; currentRawDiffText := currentRawDiffText w |}).
Proof.
  intros Hclean Hparse. unfold processAndShowAllDiffs.
  destruct (cleanDiffInput rawDiffText) as [|a s] eqn:Htext; [done|].
  unfold Diff_parsePatch, callFn, bind, tryCatch, emit, ret, consoleError,
    postParseError, showErrorMessage, getWorld, previewThrownCalls.
  simpl. rewrite Hparse. simpl.
  by destruct (view w).
Qed.

Lemma processAndShowAllDiffs_none rawDiffText w :
  cleanDiffInput rawDiffText ≠ "" →
  parsePatch h (cleanDiffInput rawDiffText) = inr [] →
  processAndShowAllDiffs (R:=unit) h rawDiffText w =
  (Normal tt,
   {| fs := fs w;
      trace := previewNoPatchesCalls (cleanDiffInput rawDiffText) ++ trace w;
      view := view w; currentRawDiffText := currentRawDiffText w |}).
Proof.
  intros Hclean Hparse. unfold processAndShowAllDiffs.
  destruct (cleanDiffInput rawDiffText) as [|a s] eqn:Htext; [done|].
  unfold Diff_parsePatch, callFn, bind, tryCatch, emit, ret, showErrorMessage,
    previewNoPatchesCalls.
  simpl. rewrite Hparse. reflexivity.
Qed.

End PreviewRuns.

(** X7. When the parser fails on the text of the preview, no document is
    opened and no diff view is shown. If it throws, the error goes to the
    console, to the user and to the webview; if it returns no patch, the
    user is told and, unlike in the apply operation, the webview is not.
    Either way the call returns normally. *)
Theorem X7_preview_reports_parse_failures
  (h : Host) (rawDiffText : string) (w : World) :
  cleanDiffInput rawDiffText ≠ "" →
  (∀ e, parsePatch h (cleanDiffInput rawDiffText) = inl e →
     processAndShowAllDiffs (R:=unit) h rawDiffText w =
     (Normal tt,
      {| fs := fs w;
         trace := previewThrownCalls w (cleanDiffInput rawDiffText) e ++ trace w;
         view := view w; currentRawDiffText := currentRawDiffText w |})) ∧
  (parsePatch h (cleanDiffInput rawDiffText) = inr [] →
     processAndShowAllDiffs (R:=unit) h rawDiffText w =
     (Normal tt,
      {| fs := fs w;
         trace := previewNoPatchesCalls (cleanDiffInput rawDiffText) ++ trace w;
         view := view w; currentRawDiffText := currentRawDiffText w |})).
Proof.
  intros Hclean. split.
  - intros e. by apply processAndShowAllDiffs_thrown.
  - by apply processAndShowAllDiffs_none.
Qed.

(** X7 on a run: the parser throws on the two sections. *)
Lemma X7_witness :
  let h := Scenario.host (ScenarioParsers.failing ScenarioParsers.secondSectionError)
             Scenario.rejecting in
  head (trace (processAndShowAllDiffs (R:=unit) h ScenarioParsers.twoSections
                 (Scenario.world ∅)).2) =
  Some (PostMessage "parseError"
          "Error parsing diff: Hunk at line 10 has a malformed header").
Proof.
  intros h.
  destruct (X7_preview_reports_parse_failures h ScenarioParsers.twoSections
              (Scenario.world ∅)) as [Hthrown _].
  - by vm_compute.
  - rewrite (Hthrown ScenarioParsers.secondSectionError eq_refl). reflexivity.
Defined.

(** ** No exception leaves the provider *)

Section Safety.
Context (h : Host).

Local Ltac value := first [ by eexists | by destruct_all unit | done ].

Lemma showDiffForPatch_normal {R} patch n w :
  wp (showDiffForPatch (R:=R) h patch n) (λ r _, isNormal r) w.
Proof.
  unfold showDiffForPatch.
  destruct (Diff.hunks patch); [wp_run; value|].
  destruct (reconstruct _) as [originalContent newContent]. wp_run; value.
Qed.

Lemma showDiffs_normal {R} patches n w :
  wp (showDiffs (R:=R) h patches n) (λ r _, isNormal r) w.
Proof.
  revert n w. induction patches as [|patch rest IH]; intros n w; simpl.
  - apply wp_ret. by eexists.
  - apply wp_bind. eapply wp_mono; [apply showDiffForPatch_normal|].
    intros r w1 [n1 ->]. apply IH.
Qed.

Lemma applyOnePatch_normal {R} patch c w :
  wp (applyOnePatch (R:=R) h patch c) (λ r _, isNormal r) w.
Proof.
  unfold applyOnePatch.
  destruct (Diff.hunks patch) as [|hunk hunks]; [wp_run; value|].
  unfold wp, tryCatch, bind, showErrorMessage, emit, ret.
  pose proof (callFn_not_returned (R':=R)
    (names <- resolveNames patch ;;
     let '(searchFileNameNormalized, displayFileName) := names in
     targetFileUri <- chooseTarget h patch searchFileNameNormalized displayFileName ;;
     applyToTarget h patch targetFileUri displayFileName) w) as Hnot.
  fold (applySinglePatch (R:=R) h patch) in Hnot.
  destruct (applySinglePatch h patch w) as [[[]|r|e] w1]; cbn [fst snd] in *;
    try (by eexists).
  by destruct (Hnot r).
Qed.

Lemma applyPatches_normal {R} patches c w :
  wp (applyPatches (R:=R) h patches c) (λ r _, isNormal r) w.
Proof.
  revert c w. induction patches as [|patch rest IH]; intros c w; simpl.
  - apply wp_ret. by eexists.
  - apply wp_bind. eapply wp_mono; [apply applyOnePatch_normal|].
    intros r w1 [c1 ->]. apply IH.
Qed.

Lemma processAndShowAllDiffs_normal {R} rawDiffText w :
  wp (processAndShowAllDiffs (R:=R) h rawDiffText) (λ r _, r = Normal tt) w.
Proof.
  unfold processAndShowAllDiffs. wp_run; try value.
  all: eapply wp_mono; [apply showDiffs_normal|]; cbv beta.
  all: intros r w1 [n ->]; wp_run; value.
Qed.

Lemma applyAllPatchesToFiles_normal {R} rawDiffText w :
  wp (applyAllPatchesToFiles (R:=R) h rawDiffText) (λ r _, r = Normal tt) w.
Proof.
  unfold applyAllPatchesToFiles, parseForApplying, reportSummary. wp_run; try value.
  all: eapply wp_mono; [apply applyPatches_normal|]; cbv beta.
  all: intros r w1 [c ->]; wp_run; value.
Qed.

Lemma onDidReceiveMessage_normal {R} data w :
  wp (onDidReceiveMessage (R:=R) h data) (λ r _, r = Normal tt) w.
Proof.
  unfold onDidReceiveMessage. wp_run; try value.
  all: first [ eapply wp_mono; [apply processAndShowAllDiffs_normal|]
             | eapply wp_mono; [apply applyAllPatchesToFiles_normal|] ]; cbv beta.
  all: by intros r w1 ->.
Qed.

End Safety.

(** X8. Whatever the parser, the engine, the user and the file system do,
    no exception leaves the preview, the apply operation or the handler of
    the webview's messages: each of them returns normally. *)
Theorem X8_no_exception_escapes (h : Host) (w : World) :
  (∀ rawDiffText, (processAndShowAllDiffs (R:=unit) h rawDiffText w).1 = Normal tt) ∧
  (∀ rawDiffText, (applyAllPatchesToFiles (R:=unit) h rawDiffText w).1 = Normal tt) ∧
  (∀ data, (onDidReceiveMessage (R:=unit) h data w).1 = Normal tt).
Proof.
  split; [|split]; intros x.
  - apply (processAndShowAllDiffs_normal h (R:=unit)).
  - apply (applyAllPatchesToFiles_normal h (R:=unit)).
  - apply (onDidReceiveMessage_normal h (R:=unit)).
Qed.

(** ** The number of diff views *)

Section Views.
Context (h : Host).
Hypothesis no_fault : neverFails h.

Local Ltac contradiction_with_no_fault :=
  match goal with
  | H : fault h _ _ = Some _ |- _ => by rewrite no_fault in H
  end.

Lemma showDiffForPatch_views {R} patch n w0 evs0 w :
  callsBetween w0 w evs0 →
  wp (showDiffForPatch (R:=R) h patch n)
     (λ r w', r = Normal (n + (if hasHunks patch then 1 else 0)) ∧
              ∃ evs, callsBetween w0 w' evs ∧
                     countCalls isExecuteDiff evs =
                     countCalls isExecuteDiff evs0 + (if hasHunks patch then 1 else 0)) w.
Proof.
  intros Hw. unfold showDiffForPatch, hasHunks.
  destruct (Diff.hunks patch).
  { wp_run. split; [f_equal; lia|]. eexists. split; [calls_tac|].
    cbn [countCalls isExecuteDiff]. lia. }
  destruct (reconstruct _) as [originalContent newContent].
  wp_run; try contradiction_with_no_fault.
  split; [f_equal; lia|]. eexists. split; [calls_tac|].
  cbn [countCalls isExecuteDiff]. lia.
Qed.

Lemma showDiffs_views {R} patches n w0 evs0 w :
  callsBetween w0 w evs0 →
  wp (showDiffs (R:=R) h patches n)
     (λ r w', r = Normal (n + countWithHunks patches) ∧
              ∃ evs, callsBetween w0 w' evs ∧
                     countCalls isExecuteDiff evs =
                     countCalls isExecuteDiff evs0 + countWithHunks patches) w.
Proof.
  revert n evs0 w. induction patches as [|patch rest IH]; intros n evs0 w Hw.
  - apply wp_ret. unfold countWithHunks. simpl. split; [f_equal; lia|].
    exists evs0. split; [done|lia].
  - cbn [showDiffs]. apply wp_bind.
    eapply wp_mono; [by apply showDiffForPatch_views|]. cbv beta.
    intros r w1 (-> & evs1 & Hw1 & Hcount).
    eapply wp_mono; [by apply IH|]. cbv beta.
    intros r w2 (-> & evs2 & Hw2 & Hcount2).
    unfold countWithHunks in *. cbn [List.filter].
    destruct (hasHunks patch); cbn [length];
      (split; [f_equal; lia|]); exists evs2; (split; [done|lia]).
Qed.

Lemma processAndShowAllDiffs_views rawDiffText patches w :
  cleanDiffInput rawDiffText ≠ "" →
  parsePatch h (cleanDiffInput rawDiffText) = inr patches →
  patches ≠ [] →
  wp (processAndShowAllDiffs (R:=unit) h rawDiffText)
     (λ _ w', ∃ evs, callsBetween w w' evs ∧
                     countCalls isExecuteDiff evs = countWithHunks patches ∧
                     head evs = Some (previewSummary (countWithHunks patches))) w.
Proof.
  intros Hclean Hparse Hne.
  unfold processAndShowAllDiffs.
  destruct (cleanDiffInput rawDiffText) as [|a s] eqn:Htext; [done|].
  wp_run; try congruence.
  eapply wp_mono.
  { apply (showDiffs_views (R:=unit) _ 0 w [ParsePatch (String a s)]).
    calls_tac. }
  cbv beta. intros r w1 (-> & evs & Hw1 & Hcount).
  cbn [countCalls isExecuteDiff] in Hcount. rewrite !Nat.add_0_l in *.
  match goal with
  | H : parsePatch h _ = inr (?p :: ?ps) |- _ =>
      assert (patches = p :: ps) as -> by congruence
  end.
  destruct (countWithHunks _) as [|k] eqn:Hk; wp_run.
  all: eexists; split; [calls_tac|]; split; [|reflexivity].
  all: cbn [countCalls isExecuteDiff]; lia.
Qed.

End Views.

(** X9. When no call of the host fails, the preview of a parsed text opens
    one diff view for each patch that has a hunk, and its last message says
    how many: the number of these patches, or the warning that no view was
    opened when there is none. *)
Theorem X9_one_diff_view_per_patch_with_hunks
  (h : Host) (rawDiffText : string) (patches : list ParsedPatchType) (w : World) :
  neverFails h →
  cleanDiffInput rawDiffText ≠ "" →
  parsePatch h (cleanDiffInput rawDiffText) = inr patches →
  patches ≠ [] →
  ∃ evs, callsBetween w (processAndShowAllDiffs (R:=unit) h rawDiffText w).2 evs ∧
         countCalls isExecuteDiff evs = countWithHunks patches ∧
         head evs = Some (previewSummary (countWithHunks patches)).
Proof. intros Hno. by apply processAndShowAllDiffs_views. Qed.

(** X9 on a run: two patches with one hunk each. *)
Lemma X9_witness :
  let h := Scenario.host
             (ScenarioParsers.returning [Scenario.modification; Scenario.creation])
             Scenario.rejecting in
  ∃ evs, callsBetween (Scenario.world ∅)
           (processAndShowAllDiffs (R:=unit) h ScenarioParsers.twoGoodSections
              (Scenario.world ∅)).2 evs ∧
         countCalls isExecuteDiff evs = 2 ∧
         head evs = Some (ShowInformationMessage "Opened 2 diff view(s).").
Proof.
  intros h.
  apply (X9_one_diff_view_per_patch_with_hunks h ScenarioParsers.twoGoodSections
           [Scenario.modification; Scenario.creation] (Scenario.world ∅)).
  - intros w e. reflexivity.
  - by vm_compute.
  - reflexivity.
  - discriminate.
Defined.

(** ** More on the session *)

Section SessionMore.
Context (h : Host).

Lemma applyPatches_hunkless {R} patches c w :
  Forall (λ patch, Diff.hunks patch = []) patches →
  applyPatches (R:=R) h patches c w =
  (Normal {| appliedCount := appliedCount c;
             skippedCount := skippedCount c + length patches;
             errorCount := errorCount c |},
   {| fs := fs w;
      trace := reverse (skippedMessage <$> patches) ++ trace w;
      view := view w; currentRawDiffText := currentRawDiffText w |}).
Proof.
  intros Hpatches. revert c w.
  induction Hpatches as [|patch rest Hpatch _ IH]; intros c w.
  - simpl. unfold ret. destruct c, w. simpl. by rewrite Nat.add_0_r.
  - cbn [applyPatches]. unfold bind at 1. unfold applyOnePatch. rewrite Hpatch.
    unfold bind, showInformationMessage, emit, ret. rewrite IH.
    cbn [appliedCount skippedCount errorCount fs trace view currentRawDiffText
         length fmap list_fmap].
    rewrite reverse_cons, <- app_assoc. cbn [app].
    do 2 f_equal. f_equal. lia.
Qed.

Lemma resolveNames_names patch w :
  wp (resolveNames patch)
     (λ r w', match r with
              | Normal (search, _) =>
                  w' = w ∧
                  (isNewFile patch = true →
                   ∃ name, Diff.newFileName patch = Some name ∧ search = JS.strip_b name)
              | Returned _ => True
              | Thrown _ => False
              end) w.
Proof.
  unfold resolveNames.
  destruct (isNewFile patch) eqn:Hnew, (Diff.newFileName patch) as [name|] eqn:Hname;
    wp_run; try done; split; try done; intros _; by exists name.
Qed.

Lemma applyToTarget_no_throw patch target display w :
  wp (applyToTarget h patch target display) (λ r _, ∀ e, r ≠ Thrown e) w.
Proof. wp_run; by intros e. Qed.

Lemma chooseTarget_thrown patch search display w :
  wp (chooseTarget h patch search display)
     (λ r w', ∀ e, r = Thrown e →
        isNewFile patch = true ∧
        ((∃ wsFolder,
            workspaceFolder h = Some wsFolder ∧ joinPath h wsFolder search = inl e ∧
            callsBetween w w' []) ∨
         (∃ defaultPath chosen,
            showInputBox h w ("Enter path to create new file: " +:+ search)
              defaultPath "Enter full path for the new file" = Some chosen ∧
            callsBetween w w'
              [ ShowInputBox ("Enter path to create new file: " +:+ search)
                  defaultPath "Enter full path for the new file" (Some chosen) ] ∧
            uriFile h chosen = inl e))) w.
Proof.
  wp_run; intros e' He'; try discriminate He'.
  all: injection He' as <-; split; [done|].
  all: try (left; eexists; split; [reflexivity|]; split; [eassumption|done]).
  all: right.
  all: match goal with
       | H : JS.truthy ?answer = true |- _ =>
           destruct answer as [[|c r]|] eqn:Hanswer; try discriminate H
       end.
  all: eexists _, _; split; [exact Hanswer|]; split; [done|eassumption].
Qed.

Lemma applySinglePatch_thrown {R} patch w :
  wp (applySinglePatch (R:=R) h patch)
     (λ r w', ∀ e, r = Thrown e →
        ∃ evs, callsBetween w w' evs ∧ throwsOutsideTry h patch w evs e) w.
Proof.
  unfold applySinglePatch. apply wp_callFn, wp_bind.
  eapply wp_mono; [apply resolveNames_names|]. cbv beta.
  intros [[search display]|b|e] w1 Hnames; [|done..].
  destruct Hnames as [-> Hname].
  apply wp_bind.
  eapply wp_mono; [apply chooseTarget_thrown|]. cbv beta.
  intros [target|b|e] w2 Hthrow; [|done|].
  - eapply wp_mono; [apply applyToTarget_no_throw|]. cbv beta.
    intros [b|b|e] w3 Hno'; [done..|]. by destruct (Hno' e).
  - intros e0 [= <-].
    destruct (Hthrow e eq_refl) as (Hnew & Hcase).
    destruct (Hname Hnew) as (name & Hnewname & ->).
    destruct Hcase as [(wsFolder & Hws & Hjoin & Hcalls)
                      |(defaultPath & chosen & Hanswer & Hcalls & Huri)].
    + exists []. split; [done|]. split; [done|]. exists name. split; [done|].
      left. by exists wsFolder.
    + eexists. split; [exact Hcalls|]. split; [done|]. exists name. split; [done|].
      right. by exists defaultPath, chosen.
Qed.

Lemma turn_no_failure patch w :
  (∀ w0 evs e, ¬ throwsOutsideTry h patch w0 evs e) →
  (turn h patch w).1 ≠ Failed.
Proof.
  intros Hno. unfold turn. destruct (Diff.hunks patch) as [|hunk hunks]; [done|].
  pose proof (applySinglePatch_thrown (R:=unit) patch w) as Hthrown.
  unfold wp in Hthrown.
  destruct (applySinglePatch h patch w) as [[[]|r|e] w1]; try done.
  destruct (Hthrown e eq_refl) as (evs & _ & Hthrows). by destruct (Hno w evs e).
Qed.

Lemma turns_no_failure patches w :
  Forall (λ patch, ∀ w0 evs e, ¬ throwsOutsideTry h patch w0 evs e) patches →
  countOutcome Failed (turns h patches w).1 = 0.
Proof.
  intros Hpatches. revert w.
  induction Hpatches as [|patch rest Hpatch _ IH]; intros w; [done|].
  cbn [turns]. pose proof (turn_no_failure patch w Hpatch) as Hturn.
  destruct (turn h patch w) as [o w1]. specialize (IH w1).
  destruct (turns h rest w1) as [os w2]. cbn [fst] in *.
  rewrite countOutcome_cons, countOutcome_one, IH. by case_bool_decide.
Qed.

End SessionMore.

(** X10. Patches without hunks are skipped and touch nothing: when no
    parsed patch has a hunk, the apply operation shows one skip message for
    each of them, in order, and the warning that nothing was applied, with
    all of them counted as skipped; no prompt is shown and no file is
    looked up, read or changed. *)
Theorem X10_patches_without_hunks_are_skipped
  (h : Host) (rawDiffText : string) (patches : list ParsedPatchType) (w : World) :
  cleanDiffInput rawDiffText ≠ "" →
  parsePatch h (cleanDiffInput rawDiffText) = inr patches →
  patches ≠ [] →
  Forall (λ patch, Diff.hunks patch = []) patches →
  applyAllPatchesToFiles (R:=unit) h rawDiffText w =
  (Normal tt,
   {| fs := fs w;
      trace :=
        ShowWarningMessage
          (summaryMessage {| appliedCount := 0; skippedCount := length patches;
                             errorCount := 0 |} +:+
           " No patches were successfully applied.")
        :: reverse (skippedMessage <$> patches)
        ++ ParsePatch (cleanDiffInput rawDiffText) :: trace w;
      view := view w; currentRawDiffText := currentRawDiffText w |}).
Proof.
  intros Hclean Hparse Hne Hpatches.
  rewrite (applyAllPatchesToFiles_parsed _ _ _ _ Hclean Hparse Hne).
  unfold callFn, bind. rewrite applyPatches_hunkless by done.
  reflexivity.
Qed.

(** X10 on a run: one patch that names [f.txt] and has no hunk. *)
Lemma X10_witness :
  let h := Scenario.host (ScenarioParsers.returning [ScenarioMore.withoutHunks])
             Scenario.rejecting in
  (applyAllPatchesToFiles (R:=unit) h "--- a/f.txt" (Scenario.world ∅)).2.(trace) =
  [ ShowWarningMessage
      "Patch application process finished. Applied: 0, Skipped/Cancelled: 1, Errors: 0. No patches were successfully applied.";
    ShowInformationMessage "Skipping patch for 'f.txt' as it has no content/hunks.";
    ParsePatch "--- a/f.txt" ].
Proof.
  intros h.
  rewrite (X10_patches_without_hunks_are_skipped h "--- a/f.txt"
             [ScenarioMore.withoutHunks] (Scenario.world ∅)).
  - reflexivity.
  - by vm_compute.
  - reflexivity.
  - discriminate.
  - by repeat constructor.
Defined.

(** X11. Applying one patch throws in two cases only, both for a patch
    that creates a file and both before anything is looked up or changed:
    joining the workspace folder and the file name of the patch for the
    default path fails, and then nothing has been called; or the path that
    the user has typed in the input box cannot be made a URI, and then the
    input box is all that has been called. Every other failure is caught
    inside [applySinglePatch]. *)
Theorem X11_applySinglePatch_throws_outside_try_only
  (h : Host) (patch : ParsedPatchType) (w : World) (e : JsError) (evs : list Event) :
  (applySinglePatch (R:=unit) h patch w).1 = Thrown e →
  callsBetween w (applySinglePatch (R:=unit) h patch w).2 evs →
  throwsOutsideTry h patch w evs e.
Proof.
  intros Hthrown Hevs.
  destruct (applySinglePatch_thrown h (R:=unit) patch w e Hthrown) as (evs' & Hc & Hthrows).
  by rewrite (callsBetween_unique _ _ _ _ Hevs Hc).
Qed.

(** X11 on a run: the new file [n.txt] with a host that cannot make a URI
    of the path typed. *)
Lemma X11_witness :
  let h := ScenarioMore.hostWithoutUris Scenario.noParse Scenario.rejecting in
  throwsOutsideTry h Scenario.creation (Scenario.world ∅)
    [ ShowInputBox "Enter path to create new file: n.txt" "/ws/n.txt"
        "Enter full path for the new file" (Some "/ws/n.txt") ]
    ScenarioMore.uriError.
Proof.
  intros h.
  apply (X11_applySinglePatch_throws_outside_try_only h Scenario.creation
           (Scenario.world ∅) ScenarioMore.uriError).
  - reflexivity.
  - reflexivity.
Defined.

(** X12. The error counter counts these throws only: in a session in which
    no patch can throw in one of these two ways, no patch fails; the
    summary is the information or the warning, it reports zero errors, and
    its numbers of applied and of skipped patches add up to the number of
    patches. *)
Theorem X12_no_errors_without_a_throw_outside_try
  (h : Host) (rawDiffText : string) (patches : list ParsedPatchType) (w : World) :
  cleanDiffInput rawDiffText ≠ "" →
  parsePatch h (cleanDiffInput rawDiffText) = inr patches →
  patches ≠ [] →
  Forall (λ patch, ∀ w0 evs e, ¬ throwsOutsideTry h patch w0 evs e) patches →
  ∃ applied skipped,
    applied + skipped = length patches ∧
    head (trace (applyAllPatchesToFiles (R:=unit) h rawDiffText w).2) =
      Some (match applied with
            | O =>
                ShowWarningMessage
                  ("Patch application process finished. Applied: 0, Skipped/Cancelled: " +:+
                   pretty skipped +:+
                   ", Errors: 0. No patches were successfully applied.")
            | S _ =>
                ShowInformationMessage
                  ("Patch application process finished. Applied: " +:+ pretty applied +:+
                   ", Skipped/Cancelled: " +:+ pretty skipped +:+ ", Errors: 0.")
            end).
Proof.
  intros Hclean Hparse Hne Hpatches.
  rewrite (applyAllPatchesToFiles_session h _ _ _ Hclean Hparse Hne).
  unfold afterSession.
  set (session := turns h patches _).
  pose proof (countOutcome_total session.1) as Htotal.
  assert (countOutcome Failed session.1 = 0) as Hfailed by by apply turns_no_failure.
  assert (length session.1 = length patches) as Hlength by apply turns_length.
  exists (countOutcome Applied session.1), (countOutcome SkippedOrCancelled session.1).
  split; [lia|]. rewrite Hfailed. cbn [snd trace afterCall head].
  unfold summaryCall, summaryText.
  destruct (countOutcome Applied session.1); by rewrite ?string_app_assoc.
Qed.

(** X12 on a run: [f.txt] is changed and [n.txt] is created. *)
Lemma X12_witness :
  let h := Scenario.host
             (ScenarioParsers.returning [Scenario.modification; Scenario.creation])
             (Scenario.answering
                [ (Scenario.lines ["a"; "b"; "c"], Scenario.lines ["a"; "B"; "c"]);
                  ("", Scenario.lines ["x"; "y"]) ]) in
  let w := Scenario.world {[ "/ws/f.txt" := File (Scenario.lines ["a"; "b"; "c"]) ]} in
  ∃ applied skipped,
    applied + skipped = 2 ∧
    head (trace (applyAllPatchesToFiles (R:=unit) h
                   ScenarioParsers.twoGoodSections w).2) =
      Some (match applied with
            | O =>
                ShowWarningMessage
                  ("Patch application process finished. Applied: 0, Skipped/Cancelled: " +:+
                   pretty skipped +:+
                   ", Errors: 0. No patches were successfully applied.")
            | S _ =>
                ShowInformationMessage
                  ("Patch application process finished. Applied: " +:+ pretty applied +:+
                   ", Skipped/Cancelled: " +:+ pretty skipped +:+ ", Errors: 0.")
            end).
Proof.
  intros h w.
  apply (X12_no_errors_without_a_throw_outside_try h ScenarioParsers.twoGoodSections
           [Scenario.modification; Scenario.creation] w).
  - by vm_compute.
  - reflexivity.
  - discriminate.
  - repeat constructor; intros w0 evs e (Hnew & name & Hname & Hcase).
    + discriminate Hnew.
    + destruct Hcase as [(ws & _ & Hjoin & _)|(d & chosen & _ & _ & Huri)];
        [discriminate Hjoin|discriminate Huri].
Defined.

(** ** More on applying one patch *)

Lemma countCalls_none kind evs :
  Forall (λ e, kind e = false) evs → countCalls kind evs = 0.
Proof.
  induction 1 as [|e evs He _ IH]; [done|]. cbn [countCalls]. by rewrite He, IH.
Qed.

Section Single.
Context (h : Host).

Lemma applySinglePatch_frame patch w :
  wp (applySinglePatch (R:=unit) h patch)
     (λ _ w', ∃ evs, callsBetween w w' evs ∧
        countCalls isEngineCall evs ≤ 1 ∧
        countCalls isFileChange evs ≤ 1 ∧
        ∃ target,
          fs w' = fs w ∨
          (fs w' = delete target (fs w) ∧ In (FsDelete target) evs) ∨
          (∃ content, fs w' = <[target := File content]> (fs w) ∧
                      In (FsWriteFile target content) evs)) w.
Proof.
  apply applySinglePatch_phases.
  intros w1 (evs1 & Hc1 & HF1 & Hfs & _).
  assert (countCalls isEngineCall evs1 = 0) as Hne.
  { apply countCalls_none. eapply Forall_impl; [exact HF1|].
    intros e. apply resolution_not_engine. }
  assert (countCalls isFileChange evs1 = 0) as Hnc.
  { apply countCalls_none. eapply Forall_impl; [exact HF1|].
    intros e. apply resolution_not_change. }
  split; [|split].
  - exists evs1. rewrite Hne, Hnc. repeat split; [done|lia..|]. exists "". by left.
  - intros e. exists evs1. rewrite Hne, Hnc. repeat split; [done|lia..|].
    exists "". by left.
  - intros target display. wp_run.
    all: eexists; split; [calls_tac|].
    all: cbn [countCalls isEngineCall isFileChange]; rewrite ?Hne, ?Hnc.
    all: split; [lia|]; split; [lia|]; exists target; rewrite Hfs.
    all: first [ left; reflexivity
               | right; left; split; [reflexivity|in_head]
               | right; right; eexists; split; [reflexivity|in_head] ].
Qed.

Lemma applySinglePatch_success patch w :
  wp (applySinglePatch (R:=unit) h patch)
     (λ r w', r = Normal true →
        ∃ evs source result target,
          callsBetween w w' evs ∧
          In (ApplyPatch source patch 2 (Some result)) evs ∧
          if isDeletedFile patch && String.eqb (JS.trim result) ""
          then fs w' = delete target (fs w) ∧ In (FsDelete target) evs
          else fs w' = <[target := File result]> (fs w) ∧
               In (FsWriteFile target result) evs) w.
Proof.
  apply applySinglePatch_phases.
  intros w1 (evs1 & Hc1 & HF1 & Hfs & _).
  split; [done|]. split; [done|].
  intros target display. wp_run.
  all: intros Hr; try discriminate Hr.
  all: eexists _, _, _, target; split; [calls_tac|]; split; [in_head|].
  all: repeat match goal with H : _ = _ |- _ => rewrite H end; cbn [andb].
  all: split; [reflexivity|in_head].
Qed.

End Single.

(** X13. Applying one patch calls the engine at most once and changes at
    most one file, at most once: the files are afterwards as before, or the
    target has been deleted, or the target has been written; every other
    file is as it was. *)
Theorem X13_one_patch_changes_one_file_at_most
  (h : Host) (patch : ParsedPatchType) (w : World) :
  ∃ evs, callsBetween w (applySinglePatch (R:=unit) h patch w).2 evs ∧
    countCalls isEngineCall evs ≤ 1 ∧
    countCalls isFileChange evs ≤ 1 ∧
    ∃ target,
      fs (applySinglePatch (R:=unit) h patch w).2 = fs w ∨
      (fs (applySinglePatch (R:=unit) h patch w).2 = delete target (fs w) ∧
       In (FsDelete target) evs) ∨
      (∃ content,
         fs (applySinglePatch (R:=unit) h patch w).2 = <[target := File content]> (fs w) ∧
         In (FsWriteFile target content) evs).
Proof. apply applySinglePatch_frame. Qed.

(** X14. When applying one patch returns [true], the engine has returned a
    text for this patch with the fuzz factor 2, and this text is what the
    target now holds; only for a file-deletion patch with a blank text the
    target is gone instead. *)
Theorem X14_success_writes_the_engine_result
  (h : Host) (patch : ParsedPatchType) (w : World) :
  (applySinglePatch (R:=unit) h patch w).1 = Normal true →
  ∃ evs source result target,
    callsBetween w (applySinglePatch (R:=unit) h patch w).2 evs ∧
    In (ApplyPatch source patch 2 (Some result)) evs ∧
    if isDeletedFile patch && String.eqb (JS.trim result) ""
    then fs (applySinglePatch (R:=unit) h patch w).2 = delete target (fs w) ∧
         In (FsDelete target) evs
    else fs (applySinglePatch (R:=unit) h patch w).2 = <[target := File result]> (fs w) ∧
         In (FsWriteFile target result) evs.
Proof. apply applySinglePatch_success. Qed.

(** X14 on a run: the new file [n.txt]. *)
Lemma X14_witness :
  let h := Scenario.host Scenario.noParse
             (Scenario.answering [("", Scenario.lines ["x"; "y"])]) in
  ∃ evs source result target,
    callsBetween (Scenario.world ∅)
      (applySinglePatch (R:=unit) h Scenario.creation (Scenario.world ∅)).2 evs ∧
    In (ApplyPatch source Scenario.creation 2 (Some result)) evs ∧
    if isDeletedFile Scenario.creation && String.eqb (JS.trim result) ""
    then fs (applySinglePatch (R:=unit) h Scenario.creation (Scenario.world ∅)).2
         = delete target (fs (Scenario.world ∅)) ∧
         In (FsDelete target) evs
    else fs (applySinglePatch (R:=unit) h Scenario.creation (Scenario.world ∅)).2
         = <[target := File result]> (fs (Scenario.world ∅)) ∧
         In (FsWriteFile target result) evs.
Proof.
  intros h.
  apply (X14_success_writes_the_engine_result h Scenario.creation (Scenario.world ∅)).
  vm_compute. reflexivity.
Defined.

(** The message of line 238. *)
Lemma applySinglePatch_without_name (h : Host) (patch : ParsedPatchType) (w : World) :
  isNewFile patch = false →
  match Diff.oldFileName patch with
  | None => True
  | Some name => JS.trim (JS.strip_a name) = "" ∨ JS.strip_a name = "/dev/null"
  end →
  applySinglePatch (R:=unit) h patch w =
  (Normal false,
   {| fs := fs w;
      trace :=
        ShowErrorMessage
          ("Could not determine a valid file name from patch: old='" +:+
           JS.show (Diff.oldFileName patch) +:+ "', new='" +:+
           JS.show (Diff.newFileName patch) +:+ "'. Skipping.") :: trace w;
      view := view w; currentRawDiffText := currentRawDiffText w |}).
Proof.
  intros Hnew Hname.
  unfold applySinglePatch, resolveNames, callFn, bind. rewrite Hnew.
  cbn [andb].
  assert (negb (JS.truthy (JS.strip_a <$> Diff.oldFileName patch))
          || bool_decide (JS.strip_a <$> Diff.oldFileName patch = Some "/dev/null")
          || String.eqb (JS.trim (JS.show (JS.strip_a <$> Diff.oldFileName patch))) ""
          = true) as ->; [|reflexivity].
  destruct (Diff.oldFileName patch) as [name|]; [|reflexivity].
  change (JS.show (JS.strip_a <$> Some name)) with (JS.strip_a name).
  change (JS.strip_a <$> Some name) with (Some (JS.strip_a name)).
  destruct Hname as [Hblank | Hnull].
  - rewrite Hblank. apply orb_true_r.
  - rewrite Hnull. reflexivity.
Qed.

(** X15. A patch that does not create a file and has no usable old file
    name (none at all, a blank one, or [/dev/null] behind the prefix [a/])
    is refused with an error message: the call returns [false] and nothing
    else is called; no prompt is shown. *)
Theorem X15_patch_without_old_name_is_refused
  (h : Host) (patch : ParsedPatchType) (w : World) :
  isNewFile patch = false →
  match Diff.oldFileName patch with
  | None => True
  | Some name => JS.trim (JS.strip_a name) = "" ∨ JS.strip_a name = "/dev/null"
  end →
  applySinglePatch (R:=unit) h patch w =
  (Normal false,
   {| fs := fs w;
      trace :=
        ShowErrorMessage
          ("Could not determine a valid file name from patch: old='" +:+
           JS.show (Diff.oldFileName patch) +:+ "', new='" +:+
           JS.show (Diff.newFileName patch) +:+ "'. Skipping.") :: trace w;
      view := view w; currentRawDiffText := currentRawDiffText w |}).
Proof. apply applySinglePatch_without_name. Qed.

(** X15 on a run: a patch parsed from a text without file headers. *)
Lemma X15_witness :
  (applySinglePatch (R:=unit) (Scenario.host Scenario.noParse Scenario.rejecting)
     ScenarioMore.withoutNames (Scenario.world ∅)).2.(trace) =
  [ ShowErrorMessage
      "Could not determine a valid file name from patch: old='undefined', new='undefined'. Skipping." ].
Proof.
  rewrite (X15_patch_without_old_name_is_refused
             (Scenario.host Scenario.noParse Scenario.rejecting)
             ScenarioMore.withoutNames (Scenario.world ∅) eq_refl I).
  reflexivity.
Defined.

(** ** Cancelling, confirming and failing while one patch is applied *)

Section Cancel.
Context (h : Host).

Lemma applySinglePatch_cancelled patch w :
  isNewFile patch = true →
  dismissesInputBox h →
  wp (applySinglePatch (R:=unit) h patch)
     (λ r w', r ≠ Normal true ∧ fs w' = fs w ∧
              ∃ evs, callsBetween w w' evs ∧ Forall isPathPromptOrMessage evs) w.
Proof.
  intros Hnew Hcancel. unfold applySinglePatch.
  autounfold with provider. rewrite Hnew.
  wp_simpl.
  repeat (wp_step;
          try solve [ match goal with
                      | H : JS.truthy (showInputBox h _ _ _ _) = true |- _ =>
                          by rewrite Hcancel in H
                      end ]).
  all: split; [done|]; split; [done|].
  all: eexists; split; [calls_tac|events_tac].
Qed.

End Cancel.

(** X16. When the user dismisses the input box for the path of a new file
    (or leaves it empty), the creation is cancelled: the call does not
    return [true], no file is looked up or changed and the engine is not
    called; the prompt and the messages are all that is shown. *)
Theorem X16_cancelled_creation_touches_nothing
  (h : Host) (patch : ParsedPatchType) (w : World) :
  isNewFile patch = true →
  dismissesInputBox h →
  (applySinglePatch (R:=unit) h patch w).1 ≠ Normal true ∧
  fs (applySinglePatch (R:=unit) h patch w).2 = fs w ∧
  ∃ evs, callsBetween w (applySinglePatch (R:=unit) h patch w).2 evs ∧
         Forall isPathPromptOrMessage evs.
Proof. apply applySinglePatch_cancelled. Qed.

(** X16 on a run: the new file [n.txt], the input box dismissed. *)
Lemma X16_witness :
  let h := ScenarioMore.hostWith Scenario.noParse
             (Scenario.answering [("", Scenario.lines ["x"; "y"])])
             ScenarioMore.slashJoin None None ScenarioMore.noFaults in
  fs (applySinglePatch (R:=unit) h Scenario.creation (Scenario.world ∅)).2 = ∅.
Proof.
  intros h.
  destruct (X16_cancelled_creation_touches_nothing h Scenario.creation
              (Scenario.world ∅)) as (_ & Hfs & _).
  - reflexivity.
  - intros w prompt value placeHolder. reflexivity.
  - exact Hfs.
Defined.

Section Overwrite.
Context (h : Host).

Lemma applySinglePatch_no_overwrite patch w :
  isNewFile patch = true →
  neverConfirms h →
  statIsReliable h →
  wp (applySinglePatch (R:=unit) h patch)
     (λ _ w', ∀ path node, fs w !! path = Some node → fs w' !! path = Some node) w.
Proof.
  intros Hnew Hmodal Hstat. apply applySinglePatch_phases.
  intros w1 (evs1 & _ & _ & Hfs & _).
  split; [by rewrite Hfs|]. split; [by rewrite Hfs|].
  intros target display.
  autounfold with provider. rewrite Hnew. wp_simpl.
  repeat (wp_step;
          try solve [ match goal with
                      | H : fault h _ (FsStat _) = Some _ |- _ =>
                          by rewrite Hstat in H
                      | H : bool_decide (_ = Some "Overwrite") = true |- _ =>
                          by rewrite Hmodal in H
                      end ]).
  all: intros path node Hpath; rewrite <- Hfs in Hpath; try done.
  all: destruct (decide (path = target)) as [->|Hne]; [congruence|].
  all: first [ by rewrite lookup_insert_ne | by rewrite lookup_delete_ne ].
Qed.

End Overwrite.

(** X17. A file-creation patch never replaces an existing file without the
    user's consent: when [fs.stat] is reliable and the user does not press
    Overwrite, every file that existed before the call is afterwards as it
    was. *)
Theorem X17_no_overwrite_without_confirmation
  (h : Host) (patch : ParsedPatchType) (w : World) (path : string) (node : Node) :
  isNewFile patch = true →
  neverConfirms h →
  statIsReliable h →
  fs w !! path = Some node →
  fs (applySinglePatch (R:=unit) h patch w).2 !! path = Some node.
Proof.
  intros Hnew Hmodal Hstat. by apply applySinglePatch_no_overwrite.
Qed.

(** X17 on a run: [n.txt] exists and keeps its line. *)
Lemma X17_witness :
  let h := ScenarioMore.hostWith Scenario.noParse
             (Scenario.answering [("", Scenario.lines ["x"; "y"])])
             ScenarioMore.slashJoin (Some "/ws/n.txt") None ScenarioMore.noFaults in
  let w := Scenario.world {[ "/ws/n.txt" := File (Scenario.lines ["old"]) ]} in
  fs (applySinglePatch (R:=unit) h Scenario.creation w).2 !! "/ws/n.txt" =
  Some (File (Scenario.lines ["old"])).
Proof.
  intros h w.
  apply (X17_no_overwrite_without_confirmation h Scenario.creation w).
  - reflexivity.
  - intros w' msg items. reflexivity.
  - intros w' target. reflexivity.
  - reflexivity.
Defined.

Section Source.
Context (h : Host).

Lemma applySinglePatch_source patch w :
  isNewFile patch = false →
  wp (applySinglePatch (R:=unit) h patch)
     (λ _ w', ∃ evs, callsBetween w w' evs ∧
        ∀ source patch' fuzzFactor result,
          In (ApplyPatch source patch' fuzzFactor result) evs →
          ∃ target content,
            fs w !! target = Some (File content) ∧
            source = normalizeLineEndings content ∧
            In (FsReadFile target) evs) w.
Proof.
  intros Hnew. apply applySinglePatch_phases.
  intros w1 (evs1 & Hc1 & HF1 & Hfs & _).
  assert (∀ source patch' fuzzFactor result,
            ¬ In (ApplyPatch source patch' fuzzFactor result) evs1) as Hnot.
  { intros. apply not_engine_not_in.
    eapply Forall_impl; [exact HF1|]. intros e. apply resolution_not_engine. }
  split; [|split].
  - exists evs1. split; [done|]. intros ???? Hin. by apply Hnot in Hin.
  - intros e. exists evs1. split; [done|]. intros ???? Hin. by apply Hnot in Hin.
  - intros target display.
    autounfold with provider. rewrite Hnew. wp_simpl. repeat wp_step.
    all: eexists; split; [calls_tac|].
    all: intros source patch' fuzzFactor result Hin; in_cases Hin.
    all: try (by apply Hnot in Hin).
    all: injection Hin as <- <- <- <-.
    all: simplify_eq.
    all: match goal with
         | H : fs _ !! ?file = Some (File ?content) |- _ =>
             exists file, content; rewrite <- Hfs
         end.
    all: split; [assumption|]; split; [reflexivity|in_head].
Qed.

Lemma applySinglePatch_written_but_false patch w err :
  isDeletedFile patch = false →
  onlyEditorFails h err →
  wp (applySinglePatch (R:=unit) h patch)
     (λ r w', ∃ evs, callsBetween w w' evs ∧
        ∀ source patch' fuzzFactor c rest,
          In (ApplyPatch source patch' fuzzFactor (Some (String c rest))) evs →
          r = Normal false ∧
          ∃ target display,
            fs w' = <[target := File (String c rest)]> (fs w) ∧
            In (ShowInformationMessage (appliedMessage h target display)) evs) w.
Proof.
  intros Hdel Hfault. apply applySinglePatch_phases.
  intros w1 (evs1 & Hc1 & HF1 & Hfs & _).
  assert (∀ source patch' fuzzFactor result,
            ¬ In (ApplyPatch source patch' fuzzFactor result) evs1) as Hnot.
  { intros. apply not_engine_not_in.
    eapply Forall_impl; [exact HF1|]. intros e. apply resolution_not_engine. }
  split; [|split].
  - exists evs1. split; [done|]. intros ????? Hin. by apply Hnot in Hin.
  - intros e. exists evs1. split; [done|]. intros ????? Hin. by apply Hnot in Hin.
  - intros target display.
    autounfold with provider. rewrite Hdel. wp_simpl.
    repeat (wp_step;
            try solve [ match goal with
                        | H : fault h _ _ = _ |- _ => by rewrite Hfault in H
                        end ]).
    all: eexists; split; [calls_tac|].
    all: intros source patch' fuzzFactor c rest Hin; in_cases Hin.
    all: try (by apply Hnot in Hin).
    all: try discriminate Hin.
    all: injection Hin as <- <- <- <- <-.
    all: split; [done|]; exists target, display; rewrite Hfs.
    all: split; [reflexivity|in_head].
Qed.

End Source.

(** X18. A patch that does not create a file is only ever applied to a file
    that exists: whenever the engine is called for it, the target has been
    read, it was a file before the call, and the text given to the engine
    is its content with the line endings normalized. For a target that is
    missing or is a directory the engine is not called. *)
Theorem X18_engine_gets_the_content_of_an_existing_file
  (h : Host) (patch : ParsedPatchType) (w : World) (evs : list Event)
  (source : string) (patch' : ParsedPatchType) (fuzzFactor : Z)
  (result : option string) :
  isNewFile patch = false →
  callsBetween w (applySinglePatch (R:=unit) h patch w).2 evs →
  In (ApplyPatch source patch' fuzzFactor result) evs →
  ∃ target content,
    fs w !! target = Some (File content) ∧
    source = normalizeLineEndings content ∧
    In (FsReadFile target) evs.
Proof.
  intros Hnew Hevs Hin.
  destruct (applySinglePatch_source h patch w Hnew) as (evs' & Hc & Hsource).
  rewrite <- (callsBetween_unique _ _ _ _ Hevs Hc) in Hsource.
  by eapply Hsource.
Qed.

(** X18 on a run: [f.txt] with Windows line endings. *)
Lemma X18_witness :
  let crlf := String JS.CR JS.nl in
  let content := "a" +:+ crlf +:+ "b" +:+ crlf +:+ "c" +:+ crlf in
  let h := Scenario.host Scenario.noParse Scenario.rejecting in
  let w := Scenario.world {[ "/ws/f.txt" := File content ]} in
  ∃ target content',
    fs w !! target = Some (File content') ∧
    Scenario.lines ["a"; "b"; "c"] = normalizeLineEndings content' ∧
    In (FsReadFile target) (trace (applySinglePatch (R:=unit) h Scenario.modification w).2).
Proof.
  intros crlf content h w.
  apply (X18_engine_gets_the_content_of_an_existing_file h Scenario.modification w
           (trace (applySinglePatch (R:=unit) h Scenario.modification w).2)
           (Scenario.lines ["a"; "b"; "c"]) Scenario.modification 2 None).
  - reflexivity.
  - by apply callsBetween_from_start.
  - vm_compute. tauto.
Defined.

(** X19. A failure of the editor after the write is reported as a failure
    of the patch: when opening the patched file in the editor fails (and
    nothing else does), a patch that is not a deletion and for which the
    engine returns a text that is not empty is written to the target, its
    success message is shown, and yet the call returns [false], so that the
    session counts the patch as skipped. *)
Theorem X19_written_but_reported_as_not_applied
  (h : Host) (err : JsError) (patch : ParsedPatchType) (w : World)
  (evs : list Event) (source : string) (patch' : ParsedPatchType)
  (fuzzFactor : Z) (c : ascii) (rest : string) :
  isDeletedFile patch = false →
  onlyEditorFails h err →
  callsBetween w (applySinglePatch (R:=unit) h patch w).2 evs →
  In (ApplyPatch source patch' fuzzFactor (Some (String c rest))) evs →
  (applySinglePatch (R:=unit) h patch w).1 = Normal false ∧
  ∃ target display,
    fs (applySinglePatch (R:=unit) h patch w).2 =
      <[target := File (String c rest)]> (fs w) ∧
    In (ShowInformationMessage (appliedMessage h target display)) evs.
Proof.
  intros Hdel Hfault Hevs Hin.
  destruct (applySinglePatch_written_but_false h patch w err Hdel Hfault)
    as (evs' & Hc & Hwritten).
  rewrite <- (callsBetween_unique _ _ _ _ Hevs Hc) in Hwritten.
  by eapply Hwritten.
Qed.

(** X19 on a run: [f.txt] is changed, the editor cannot open it. *)
Lemma X19_witness :
  let h := ScenarioMore.hostWith Scenario.noParse
             (Scenario.answering
                [(Scenario.lines ["a"; "b"; "c"], Scenario.lines ["a"; "B"; "c"])])
             ScenarioMore.slashJoin None None ScenarioMore.editorFails in
  let w := Scenario.world {[ "/ws/f.txt" := File (Scenario.lines ["a"; "b"; "c"]) ]} in
  (applySinglePatch (R:=unit) h Scenario.modification w).1 = Normal false ∧
  ∃ target display,
    fs (applySinglePatch (R:=unit) h Scenario.modification w).2 =
      <[target := File (Scenario.lines ["a"; "B"; "c"])]> (fs w) ∧
    In (ShowInformationMessage (appliedMessage h target display))
       (trace (applySinglePatch (R:=unit) h Scenario.modification w).2).
Proof.
  intros h w.
  apply (X19_written_but_reported_as_not_applied h ScenarioMore.editorError
           Scenario.modification w
           (trace (applySinglePatch (R:=unit) h Scenario.modification w).2)
           (Scenario.lines ["a"; "b"; "c"]) Scenario.modification 2).
  - reflexivity.
  - intros w' e. reflexivity.
  - by apply callsBetween_from_start.
  - vm_compute. tauto.
Defined.
(** ** The page of the webview *)

Section PageProofs.

Lemma trim_not_empty (text : string) : JS.trim text ≠ "" → text ≠ "".
Proof. by intros Htrim ->. Qed.

(** Every change of the text area is followed by [input], and the click on
    the first button copies the text as well: [lastKnownDiffText] is the
    text of the text area after every event. *)
Lemma step_lastKnownDiffText s e :
  Page.lastKnownDiffText s = Page.diffInput s →
  Page.lastKnownDiffText (Page.step s e).1 = Page.diffInput (Page.step s e).1.
Proof.
  intros Hs. destruct e as [text| | |type msg]; simpl.
  - reflexivity.
  - unfold Page.onCreateDiffViewClick. by destruct (JS.trim _).
  - unfold Page.onApplyToFileClick.
    by destruct (JS.trim (Page.diffInput s)), (JS.trim _).
  - unfold Page.onMessage. by destruct (String.eqb _ _).
Qed.

Lemma run_lastKnownDiffText es s :
  Page.lastKnownDiffText s = Page.diffInput s →
  Page.lastKnownDiffText (Page.run s es).1 = Page.diffInput (Page.run s es).1.
Proof.
  revert s. induction es as [|e rest IH]; intros s Hs; [done|].
  simpl. pose proof (step_lastKnownDiffText s e Hs) as Hstep.
  destruct (Page.step s e) as [s1 posted1]. specialize (IH s1 Hstep).
  by destruct (Page.run s1 rest) as [s2 posted2].
Qed.

Lemma step_notBlank s e msg : In msg (Page.step s e).2 → notBlank msg.
Proof.
  destruct e as [text| | |type msg']; simpl; [done| | |done].
  - unfold Page.onCreateDiffViewClick.
    destruct (JS.trim (Page.diffInput s)) eqn:Htrim; simpl.
    + by intros [<-|[]].
    + intros [<-|[]]. simpl. by rewrite Htrim.
  - unfold Page.onApplyToFileClick.
    destruct (JS.trim (Page.diffInput s)) eqn:Htrim.
    + destruct (JS.trim (Page.lastKnownDiffText s)) eqn:Hlast; simpl.
      * by intros [<-|[]].
      * intros [<-|[]]. simpl. by rewrite Hlast.
    + rewrite Htrim. simpl. intros [<-|[]]. simpl. by rewrite Htrim.
Qed.

Lemma run_notBlank es s msg : In msg (Page.run s es).2 → notBlank msg.
Proof.
  revert s. induction es as [|e rest IH]; intros s; [done|].
  simpl. pose proof (step_notBlank s e msg) as Hstep.
  destruct (Page.step s e) as [s1 posted1]. specialize (IH s1).
  destruct (Page.run s1 rest) as [s2 posted2]. simpl in *.
  rewrite in_app_iff. intros [Hin|Hin]; auto.
Qed.

End PageProofs.

Section Handler.
Context (h : Host).

Lemma callFn_after_store {R R'} text (body : M R R) w :
  callFn (R':=R') (setCurrentRawDiffText text ;;; callFn (R':=R) body) w =
  callFn (R':=R') body (withCurrentRawDiffText text w).
Proof.
  unfold callFn, bind, setCurrentRawDiffText, withCurrentRawDiffText.
  by destruct (body _) as [[?|?|?] ?].
Qed.

Lemma callFn_after_getWorld {R R'} (body : World → M R R) w :
  callFn (R':=R') (w0 <- getWorld ;; callFn (R':=R) (body w0)) w =
  callFn (R':=R') (body w) w.
Proof.
  unfold callFn, bind, getWorld. by destruct (body w w) as [[?|?|?] ?].
Qed.

Lemma onDidReceiveMessage_handled msg w :
  notBlank msg →
  onDidReceiveMessage (R:=unit) h msg w = handled h msg w.
Proof.
  destruct msg as [value|value|msg]; simpl; intros Hvalue.
  - apply trim_not_empty in Hvalue. destruct value as [|c rest]; [done|].
    apply callFn_after_store.
  - apply trim_not_empty in Hvalue. destruct value as [|c rest]; [done|].
    apply (callFn_after_getWorld (λ _, _)).
  - reflexivity.
Qed.

End Handler.

(** X20. The page keeps [lastKnownDiffText] equal to the text of the text
    area: every change of the text fires [input], which copies it, and the
    first button copies it as well. So the second button never falls back on
    an older text: after any sequence of events it posts the text of the
    text area, or, when that text is blank, the error message and no
    text. *)
Theorem X20_apply_button_posts_the_text_area (es : list Page.Event) :
  let s := (Page.run Page.initial es).1 in
  Page.lastKnownDiffText s = Page.diffInput s ∧
  (Page.onApplyToFileClick s).2 =
    match JS.trim (Page.diffInput s) with
    | EmptyString =>
        [showError "Diff input is empty. Create a diff view first or paste diff text."]
    | _ => [applyPatchToFile (Page.diffInput s)]
    end.
Proof.
  intros s. assert (Page.lastKnownDiffText s = Page.diffInput s) as Hs.
  { by apply run_lastKnownDiffText. }
  split; [done|]. unfold Page.onApplyToFileClick. rewrite Hs.
  destruct (JS.trim (Page.diffInput s)) eqn:Htrim; by rewrite Htrim.
Qed.

(** X21. The page never posts a blank text: whatever its state and the
    events, the text of each [applyDiff] and [applyPatchToFile] message it
    posts has a character that is not white space. The handler of the
    provider therefore never takes its two branches for an empty text on a
    message of the page, and never falls back on the stored text: it stores
    and previews the text of an [applyDiff] message, applies the text of an
    [applyPatchToFile] message, and shows the message of [showError]. *)
Theorem X21_page_posts_no_blank_text
  (h : Host) (s : Page.State) (es : list Page.Event) (msg : WebviewMessage)
  (w : World) :
  In msg (Page.run s es).2 →
  notBlank msg ∧ onDidReceiveMessage (R:=unit) h msg w = handled h msg w.
Proof.
  intros Hin. apply run_notBlank in Hin.
  split; [done|]. by apply onDidReceiveMessage_handled.
Qed.

(** X21 on a run: a click on an empty page, a text, two clicks. *)
Lemma X21_witness :
  let h := Scenario.host Scenario.noParse Scenario.rejecting in
  let es := [Page.ClickApplyToFile; Page.UserInput "--- a/f.txt";
             Page.ClickCreateDiffView; Page.ClickApplyToFile] in
  let msg := applyPatchToFile "--- a/f.txt" in
  let w := Scenario.world ∅ in
  notBlank msg ∧ onDidReceiveMessage (R:=unit) h msg w = handled h msg w.
Proof.
  intros h es msg w.
  apply (X21_page_posts_no_blank_text h Page.initial es msg w).
  vm_compute. tauto.
Defined.
(** ** The stored text *)

Section StoredText.
Context (h : Host).

Section Kept.
Context (text : string).

Local Ltac stored := wp_run; try assumption.
Local Ltac use lem :=
  eapply wp_mono; [eapply lem; assumption|]; cbv beta;
  let r := fresh "r" in let w := fresh "w" in let H := fresh "Hw" in
  intros r w H; destruct r; stored.

Lemma showDiffForPatch_stored {R} patch n w :
  currentRawDiffText w = text →
  wp (showDiffForPatch (R:=R) h patch n) (λ _ w', currentRawDiffText w' = text) w.
Proof.
  intros Hw. unfold showDiffForPatch.
  destruct (Diff.hunks patch); [stored|].
  destruct (reconstruct _) as [originalContent newContent]. stored.
Qed.

Lemma showDiffs_stored {R} patches n w :
  currentRawDiffText w = text →
  wp (showDiffs (R:=R) h patches n) (λ _ w', currentRawDiffText w' = text) w.
Proof.
  revert n w. induction patches as [|patch rest IH]; intros n w Hw; simpl; stored.
  use (showDiffForPatch_stored (R:=R)). by apply IH.
Qed.

Lemma processAndShowAllDiffs_stored {R} rawDiffText w :
  currentRawDiffText w = text →
  wp (processAndShowAllDiffs (R:=R) h rawDiffText)
     (λ _ w', currentRawDiffText w' = text) w.
Proof.
  intros Hw. unfold processAndShowAllDiffs. stored.
  all: use (showDiffs_stored (R:=unit)).
Qed.

Lemma applySinglePatch_stored {R} patch w :
  currentRawDiffText w = text →
  wp (applySinglePatch (R:=R) h patch) (λ _ w', currentRawDiffText w' = text) w.
Proof.
  intros Hw. apply applySinglePatch_phases.
  intros w1 (evs1 & _ & _ & _ & _ & Htext). rewrite Hw in Htext.
  split; [done|]. split; [done|]. intros target display. stored.
Qed.

Lemma applyOnePatch_stored {R} patch c w :
  currentRawDiffText w = text →
  wp (applyOnePatch (R:=R) h patch c) (λ _ w', currentRawDiffText w' = text) w.
Proof.
  intros Hw. unfold applyOnePatch.
  destruct (Diff.hunks patch); [stored|].
  apply wp_tryCatch, wp_bind.
  use (applySinglePatch_stored (R:=R)).
Qed.

Lemma applyPatches_stored {R} patches c w :
  currentRawDiffText w = text →
  wp (applyPatches (R:=R) h patches c) (λ _ w', currentRawDiffText w' = text) w.
Proof.
  revert c w. induction patches as [|patch rest IH]; intros c w Hw; simpl; stored.
  use (applyOnePatch_stored (R:=R)). by apply IH.
Qed.

Lemma applyAllPatchesToFiles_stored {R} rawDiffText w :
  currentRawDiffText w = text →
  wp (applyAllPatchesToFiles (R:=R) h rawDiffText)
     (λ _ w', currentRawDiffText w' = text) w.
Proof.
  intros Hw. unfold applyAllPatchesToFiles, parseForApplying, reportSummary. stored.
  all: use (applyPatches_stored (R:=unit)).
Qed.

End Kept.

Lemma onDidReceiveMessage_stored {R} msg w :
  wp (onDidReceiveMessage (R:=R) h msg)
     (λ _ w', currentRawDiffText w' =
              match msg with
              | applyDiff value => value
              | _ => currentRawDiffText w
              end) w.
Proof.
  unfold onDidReceiveMessage. destruct msg as [value|value|msg]; wp_run; try done.
  all: eapply wp_mono;
    [ first [ eapply (processAndShowAllDiffs_stored _ (R:=unit))
            | eapply (applyAllPatchesToFiles_stored _ (R:=unit)) ]; reflexivity |].
  all: cbv beta; intros r w' Hw'; by destruct r.
Qed.

End StoredText.

(** X22. The provider's field [_currentRawDiffText] is the text of the last
    [applyDiff] message: the handler stores the text of such a message, even
    an empty one, before anything else, and neither the preview, nor the
    apply operation, nor the handling of the other messages changes the
    field. *)
Theorem X22_stored_text_is_the_last_preview (h : Host) (w : World) :
  (∀ value,
     currentRawDiffText (onDidReceiveMessage (R:=unit) h (applyDiff value) w).2 = value) ∧
  (∀ value,
     currentRawDiffText (onDidReceiveMessage (R:=unit) h (applyPatchToFile value) w).2 =
     currentRawDiffText w) ∧
  (∀ msg,
     currentRawDiffText (onDidReceiveMessage (R:=unit) h (showError msg) w).2 =
     currentRawDiffText w) ∧
  (∀ rawDiffText,
     currentRawDiffText (processAndShowAllDiffs (R:=unit) h rawDiffText w).2 =
     currentRawDiffText w) ∧
  (∀ rawDiffText,
     currentRawDiffText (applyAllPatchesToFiles (R:=unit) h rawDiffText w).2 =
     currentRawDiffText w).
Proof.
  split; [|split; [|split; [|split]]]; intros x.
  - apply (onDidReceiveMessage_stored h (R:=unit) (applyDiff x) w).
  - apply (onDidReceiveMessage_stored h (R:=unit) (applyPatchToFile x) w).
  - apply (onDidReceiveMessage_stored h (R:=unit) (showError x) w).
  - by apply (processAndShowAllDiffs_stored h _ (R:=unit)).
  - by apply (applyAllPatchesToFiles_stored h _ (R:=unit)).
Qed.

(** X23. An [applyPatchToFile] message without text applies the text of the
    last preview: once the handler has dealt with an [applyDiff] message
    whose text is not empty, it handles [applyPatchToFile] with an empty
    text exactly as it applies that text. *)
Theorem X23_apply_without_text_uses_the_last_preview
  (h : Host) (value : string) (w : World) :
  value ≠ "" →
  let w1 := (onDidReceiveMessage (R:=unit) h (applyDiff value) w).2 in
  onDidReceiveMessage (R:=unit) h (applyPatchToFile "") w1 =
  applyAllPatchesToFiles (R:=unit) h value w1.
Proof.
  intros Hvalue w1.
  assert (currentRawDiffText w1 = value) as Hw1.
  { apply (onDidReceiveMessage_stored h (R:=unit) (applyDiff value) w). }
  destruct value as [|c rest]; [done|].
  pose proof (applyAllPatchesToFiles_normal h (R:=unit) (String c rest) w1) as Hnormal.
  unfold wp in Hnormal.
  unfold onDidReceiveMessage, callFn at 1, bind, getWorld. cbn beta iota.
  rewrite Hw1. destruct (applyAllPatchesToFiles _ _ _) as [r w2].
  simpl in Hnormal. by subst r.
Qed.

(** X23 on a run: a preview, then the second button's message without
    text. *)
Lemma X23_witness :
  let h := Scenario.host Scenario.noParse Scenario.rejecting in
  let w1 := (onDidReceiveMessage (R:=unit) h (applyDiff "--- a/f.txt")
               (Scenario.world ∅)).2 in
  onDidReceiveMessage (R:=unit) h (applyPatchToFile "") w1 =
  applyAllPatchesToFiles (R:=unit) h "--- a/f.txt" w1.
Proof.
  intros h.
  apply (X23_apply_without_text_uses_the_last_preview h "--- a/f.txt"
           (Scenario.world ∅)).
  discriminate.
Defined.

(** ** What the parser returns, and what the session makes of it *)

Section Nameless.
Context (h : Host).





End Nameless.




(** C3, as the code has it. The text is parsed as a whole, by one call of
    the parser, which either throws or returns patches. When it throws,
    that one error is shown (and sent to the webview), and nothing else is
    called: no section of the text is processed. When it returns patches,
    a section with a malformed hunk header among them, no parse error is
    reported: the session is the call of the parser, one turn for each
    returned patch in order, whatever the outcome of the others, and the
    summary; all calls between the parser and the summary are calls made
    for one of the patches. *)
Theorem C3_patches_or_one_parse_error
  (h : Host) (rawDiffText : string) (w : World) :
  cleanDiffInput rawDiffText ≠ "" →
  let text := cleanDiffInput rawDiffText in
  (∀ e, parsePatch h text = inl e →
     applyAllPatchesToFiles (R:=unit) h rawDiffText w =
     (Normal tt,
      {| fs := fs w; trace := thrownParseErrorCalls w text e ++ trace w;
         view := view w; currentRawDiffText := currentRawDiffText w |})) ∧
  (∀ patches, parsePatch h text = inr patches →
     patches ≠ [] →
     applyAllPatchesToFiles (R:=unit) h rawDiffText w =
       (Normal tt, afterSession h patches (afterCall (ParsePatch text) w)) ∧
     length (turns h patches (afterCall (ParsePatch text) w)).1 = length patches ∧
     ∃ evs applied skipped errors,
       trace (applyAllPatchesToFiles (R:=unit) h rawDiffText w).2 =
         summaryCall applied skipped errors :: evs ++ ParsePatch text :: trace w ∧
       Forall (isCallForOneOf patches) evs).
Proof.
  intros Hclean text. split.
  - intros e Hparse. by apply applyAllPatchesToFiles_thrown.
  - intros patches Hparse Hne. split; [|split].
    + by apply applyAllPatchesToFiles_session.
    + apply turns_length.
    + by apply applyAllPatchesToFiles_calls.
Qed.

(** C3 on a run: a parser that throws, and the files stay as they are. *)
Lemma C3_witness :
  let h := Scenario.host (ScenarioParsers.failing ScenarioParsers.secondSectionError)
             (Scenario.answering
                [(Scenario.lines ["a"; "b"; "c"], Scenario.lines ["a"; "B"; "c"])]) in
  let w := Scenario.world {[ "/ws/f.txt" := File (Scenario.lines ["a"; "b"; "c"]) ]} in
  fs (applyAllPatchesToFiles (R:=unit) h ScenarioParsers.twoGoodSections w).2 = fs w.
Proof.
  intros h w.
  destruct (C3_patches_or_one_parse_error h ScenarioParsers.twoGoodSections w)
    as [Hthrown _].
  - by vm_compute.
  - by rewrite (Hthrown ScenarioParsers.secondSectionError eq_refl).
Defined.

(** C3, as stated, fails. Of the two sections of the text the second has a
    malformed hunk header. The parser does not fail on it: it returns two
    patches, the second with [NaN] for the numbers of the header. No parse
    error is reported, neither to the user nor to the webview; [f.txt] is
    changed by the first patch, the second goes through its turn of the
    loop like any patch (no file is chosen for it here), and the summary
    counts both. *)
Lemma C3_counterexample :
  let h := Scenario.host
             (ScenarioParsers.returning
                [Scenario.modification; ScenarioParsers.malformedSection])
             (Scenario.answering
                [(Scenario.lines ["a"; "b"; "c"], Scenario.lines ["a"; "B"; "c"])]) in
  let w := Scenario.world {[ "/ws/f.txt" := File (Scenario.lines ["a"; "b"; "c"]) ]} in
  let run := applyAllPatchesToFiles (R:=unit) h ScenarioParsers.twoSections w in
  hasMarkerPair ScenarioParsers.twoSections = true ∧
  Forall ScenarioParsers.reportsNoError (trace run.2) ∧
  fs run.2 !! "/ws/f.txt" = Some (File (Scenario.lines ["a"; "B"; "c"])) ∧
  In (ShowInformationMessage
        "No file selected for 'g.txt'. Patch application cancelled for this file.")
     (trace run.2) ∧
  head (trace run.2) =
    Some (ShowInformationMessage
            "Patch application process finished. Applied: 1, Skipped/Cancelled: 1, Errors: 0.").
Proof.
  vm_compute. repeat split; try tauto. by repeat constructor.
Qed.
